(** * The reinforcement-learning personalisation loop ([SimpleRLLoop])

    A shallow embedding of [src/rl_learning_loop.py] and the properties its
    specification states about it.

    Conventions of the embedding:
    - a Python [float] is a binary64 number, Rocq's primitive [float], with
      the IEEE operations the interpreter uses ([+], [*], [/], [>]);
    - a Python [int] is a [Z];
    - the three [defaultdict]s are finite maps ([gmap]); a subscript read
      [d[k]] of a [defaultdict] inserts the default, [d.get(k, v)] does not,
      and the two are kept apart below;
    - the parsed JSON document keeps the order of its members (a Python
      [dict] iterates in insertion order), so it is an association list;
    - the wall clock, the random generator and the file system are explicit
      inputs; console output is modelled for the warnings of [load_state]
      and the outcome of [save_state] only. *)

From Stdlib Require Import ZArith List String Ascii Floats Lia Bool.
From Stdlib Require Import DecimalString Decimal DecimalZ DecimalPos.
From Stdlib Require Uint63.
From stdpp Require Import gmap strings list sorting.

Set Warnings "-inexact-float,-register-all".
Local Open Scope Z_scope.

(** * Part I: the program

    ** Python values shared by the methods *)

(** The exceptions the modelled code can raise. *)
Inductive exn :=
  | OverflowError
  | ValueError
  | TypeError
  | AttributeError
  | FileNotFoundError
  | JSONDecodeError
  | UnicodeEncodeError
  | OSError.

(** The result of evaluating a Python expression or statement. *)
Inductive outcome (A : Type) :=
  | Returned (a : A)
  | Raised (e : exn).

Arguments Returned {A} a.

Arguments Raised {A} e.

#[global] Instance outcome_ret : MRet outcome := @Returned.

#[global] Instance outcome_bind : MBind outcome := λ A B k x,
  match x with
  | Returned a => k a
  | Raised e => Raised e
  end.

(** [float(z)] and the implicit conversion of [z * 0.5] for an [int] [z]:
    the nearest binary64 (ties to even), [OverflowError] when [z] is too
    large to be one. *)
Definition nearest_float (z : Z) : float :=
  SF2Prim (binary_normalize prec emax z 0 false).

Definition float_of_int (z : Z) : outcome float :=
  match binary_normalize prec emax z 0 false with
  | S754_infinity _ => Raised OverflowError
  | _ => Returned (nearest_float z)
  end.

(** ** The learned state *)

(** [self.q_values], [self.user_preferences], [self.item_popularity]. A
    mapping stands for a [dict] up to [==], that is by its keys and
    values; the order in which a [dict] lists its keys is not part of it,
    and is an input where the code shows it ([get_state_summary]). *)
Record SimpleRLLoop := {
  q_values : gmap (Z * Z) float;
  user_preferences : gmap Z (gmap Z float);
  item_popularity : gmap Z float;
}.

(** [__init__]: three empty mappings. *)
Definition init : SimpleRLLoop :=
  {| q_values := ∅; user_preferences := ∅; item_popularity := ∅ |}.

Definition alpha : float := 0.1%float.

Definition gamma : float := 0.9%float.

Definition epsilon : float := 0.1%float.

Section Defaultdict.

Context {K : Type} `{Countable K}.

(** [d.get(k, 0)] on a mapping of floats: no entry is created. *)
Definition dict_get (d : gmap K float) (k : K) : float :=
  default 0%float (d !! k).

(** [d[k]] on a [defaultdict(float)], for its effect: the entry [0.0] is
    created when [k] is absent. *)
Definition dd_touch (d : gmap K float) (k : K) : gmap K float :=
  match d !! k with
  | Some _ => d
  | None => <[k := 0%float]> d
  end.

(** [d[k] += x] on a [defaultdict(float)]: the subscript read creates the
    entry [0.0] when [k] is absent, then the sum is stored. *)
Definition dd_iadd (d : gmap K float) (k : K) (x : float) : gmap K float :=
  <[k := (dict_get d k + x)%float]> d.

End Defaultdict.

(** [p[u]] on the outer [defaultdict]: the inner mapping, created empty
    when [u] is absent. *)
Definition prefs_getitem (p : gmap Z (gmap Z float)) (u : Z)
  : gmap Z float * gmap Z (gmap Z float) :=
  match p !! u with
  | Some inner => (inner, p)
  | None => (∅, <[u := ∅]> p)
  end.

(** [p[u][i] += x]. *)
Definition prefs_iadd (p : gmap Z (gmap Z float)) (u i : Z) (x : float)
  : gmap Z (gmap Z float) :=
  let '(inner, p1) := prefs_getitem p u in
  <[u := dd_iadd inner i x]> p1.

(** [p.get(u, {}).get(i, 0)]: the preference weight as the recommender reads
    it. *)
Definition pref_get (p : gmap Z (gmap Z float)) (u i : Z) : float :=
  dict_get (default ∅ (p !! u)) i.

(** The entry for [(u, i)] in the two-level mapping, if any. *)
Definition pref_lookup (p : gmap Z (gmap Z float)) (u i : Z) : option float :=
  p !! u ≫= (λ inner, inner !! i).

(** ** Update rules *)

(** [record_item_selected(user_id, item_id, state_id)]; [state_id] is
    accepted and not used. *)
Definition record_item_selected (user_id item_id : Z) (state_id : option string)
    (self : SimpleRLLoop) : SimpleRLLoop :=
  {| q_values := dd_iadd (q_values self) (user_id, item_id) alpha;
     item_popularity := dd_iadd (item_popularity self) item_id 0.1%float;
     user_preferences := prefs_iadd (user_preferences self) user_id item_id 0.2%float |}.

(** One line of an order: [item.get('item_id')] and
    [item.get('quantity', 1)]. *)
Record line_item := {
  li_item_id : Z;
  li_quantity : option Z;
}.

Definition quantity_of (item : line_item) : Z := default 1 (li_quantity item).

(** [order_data]: the list under ['items'] (absent: empty) and the number
    under ['total'] (absent: 0), the latter after [float(...)]. *)
Record order_data := {
  od_items : option (list line_item);
  od_total : option float;
}.

Definition items_of (o : order_data) : list line_item := default [] (od_items o).

Definition total_of (o : order_data) : float := default 0%float (od_total o).

(** The dictionary [record_order_completed] returns. *)
Record reward_info := {
  ri_user_id : Z;
  ri_reward : float;
  ri_items_count : nat;
  ri_order_total : float;
  ri_timestamp : string;
}.

(** The reward of an order: 1.0, [+= 0.5] when the total exceeds 500,
    [+= 0.3] when there are more than three lines. *)
Definition order_reward (items_count : nat) (order_total : float) : float :=
  let reward := 1.0%float in
  let reward := if (500 <? order_total)%float then (reward + 0.5)%float else reward in
  let reward := if (3 <? items_count)%nat then (reward + 0.3)%float else reward in
  reward.

(** The body of the loop over the lines of the order, for one line. The
    subscript [self.user_preferences[user_id]] of the logging read comes
    first and creates the user's inner mapping; the product
    [quantity * 0.5] can raise after the Q-value was already updated and
    after the subscript read of [self.item_popularity[item_id] += ...]. *)
Definition order_line (user_id : Z) (reward : float) (item : line_item)
    (self : SimpleRLLoop) : outcome unit * SimpleRLLoop :=
  let item_id := li_item_id item in
  let p1 := snd (prefs_getitem (user_preferences self) user_id) in
  let q1 := dd_iadd (q_values self) (user_id, item_id) reward in
  match float_of_int (quantity_of item) with
  | Raised e =>
      (Raised e,
       {| q_values := q1; user_preferences := p1;
          item_popularity := dd_touch (item_popularity self) item_id |})
  | Returned qf =>
      (Returned tt,
       {| q_values := q1;
          item_popularity := dd_iadd (item_popularity self) item_id (qf * 0.5)%float;
          user_preferences := prefs_iadd p1 user_id item_id reward |})
  end.

Fixpoint order_loop (user_id : Z) (reward : float) (items : list line_item)
    (self : SimpleRLLoop) : outcome unit * SimpleRLLoop :=
  match items with
  | [] => (Returned tt, self)
  | item :: rest =>
      match order_line user_id reward item self with
      | (Returned _, self1) => order_loop user_id reward rest self1
      | (Raised e, self1) => (Raised e, self1)
      end
  end.

(** [record_order_completed(user_id, order_data)]; [now] is
    [datetime.now().isoformat()]. *)
Definition record_order_completed (user_id : Z) (order : order_data) (now : string)
    (self : SimpleRLLoop) : outcome reward_info * SimpleRLLoop :=
  let items_count := length (items_of order) in
  let order_total := total_of order in
  let reward := order_reward items_count order_total in
  match order_loop user_id reward (items_of order) self with
  | (Raised e, self1) => (Raised e, self1)
  | (Returned _, self1) =>
      (Returned {| ri_user_id := user_id; ri_reward := reward;
                   ri_items_count := items_count; ri_order_total := order_total;
                   ri_timestamp := now |},
       self1)
  end.

(** The score [record_user_feedback] applies: divided by five when above
    one. *)
Definition normalize_feedback (feedback_score : float) : float :=
  if (1 <? feedback_score)%float then (feedback_score / 5.0)%float else feedback_score.

(** [record_user_feedback(user_id, item_id, feedback_score)]. *)
Definition record_user_feedback (user_id item_id : Z) (feedback_score : float)
    (self : SimpleRLLoop) : SimpleRLLoop :=
  let feedback_score := normalize_feedback feedback_score in
  {| q_values := dd_iadd (q_values self) (user_id, item_id) (feedback_score * alpha)%float;
     user_preferences := prefs_iadd (user_preferences self) user_id item_id feedback_score;
     item_popularity := item_popularity self |}.

(** ** Recommendation *)

(** A candidate of the catalogue: its ['item_id'] and its other fields,
    which the recommender copies through. *)
Record menu_item := {
  mi_item_id : Z;
  mi_fields : list (string * string);
}.

(** [{**item, 'rl_score': ..., 'q_value': ..., 'preference': ...}]. *)
Record scored_item := {
  si_item : menu_item;
  rl_score : float;
  q_value : float;
  preference : float;
}.

(** The random generator as the method consumes it: the value of
    [random.random()] and the positions [random.sample] draws. *)
Record rng := {
  rnd_random : float;
  rnd_draw : nat → nat;
}.

(** [random.sample(pool, k)] for [k <= len(pool)]: [k] elements at distinct
    positions, each drawn from what is left of the pool. *)
Fixpoint random_sample {A} (draw : nat → nat) (k : nat) (pool : list A) : list A :=
  match k with
  | O => []
  | S k' =>
      let j := (draw k' mod length pool)%nat in
      match pool !! j with
      | Some x => x :: random_sample draw k' (delete j pool)
      | None => []
      end
  end.

(** [sorted(xs, key=lambda x: x['rl_score'], reverse=True)]: a stable sort,
    highest score first, items of equal score in their input order. The
    insertion sort below is that order whenever the scores are comparable
    (no NaN). With a NaN among the scores the result of Python's sort
    depends on the steps of its merge sort, which are not modelled: what
    the insertion sort then shares with it is that the result is a
    permutation of the input, and so its length and its elements. *)
Fixpoint insert_desc (x : scored_item) (l : list scored_item) : list scored_item :=
  match l with
  | [] => [x]
  | y :: l' =>
      if (rl_score x <? rl_score y)%float then y :: insert_desc x l' else x :: l
  end.

Definition sorted_desc (l : list scored_item) : list scored_item :=
  foldr insert_desc [] l.

(** The body of the scoring loop for one candidate: three reads with
    [.get], none of which creates an entry. *)
Definition score_item (user_id : Z) (user_prefs : gmap Z float) (item : menu_item)
    (self : SimpleRLLoop) : scored_item * SimpleRLLoop :=
  let item_id := mi_item_id item in
  let q_score := dict_get (q_values self) (user_id, item_id) in
  let pref_score := dict_get user_prefs item_id in
  let pop_score := (dict_get (item_popularity self) item_id * 0.1)%float in
  let total_score := ((q_score * 0.4) + (pref_score * 0.4) + (pop_score * 0.2))%float in
  ({| si_item := item; rl_score := total_score; q_value := q_score;
      preference := pref_score |}, self).

Fixpoint score_loop (user_id : Z) (user_prefs : gmap Z float) (items : list menu_item)
    (self : SimpleRLLoop) : list scored_item * SimpleRLLoop :=
  match items with
  | [] => ([], self)
  | item :: rest =>
      let '(s, self1) := score_item user_id user_prefs item self in
      let '(ss, self2) := score_loop user_id user_prefs rest self1 in
      (s :: ss, self2)
  end.

(** The test of the epsilon-greedy branch. *)
Definition explores (g : rng) (n : nat) : bool :=
  (rnd_random g <? epsilon)%float && (3 <? n)%nat.

(** [get_personalized_recommendations(user_id, available_items)]. *)
Definition get_personalized_recommendations (user_id : Z)
    (available_items : list menu_item) (g : rng) (self : SimpleRLLoop)
    : list scored_item * SimpleRLLoop :=
  let user_prefs := default ∅ (user_preferences self !! user_id) in
  let '(scored_items, self1) := score_loop user_id user_prefs available_items self in
  let final_items :=
    if explores g (length scored_items) then
      let best_items := take 3 (sorted_desc scored_items) in
      let random_items :=
        random_sample (rnd_draw g) (Nat.min 2 (length scored_items)) scored_items in
      best_items ++ random_items
    else sorted_desc scored_items in
  (take 5 final_items, self1).

(** ** Strings and integers, as the persistence code uses them *)

(** [str(z)] for an [int]: the decimal digits, a minus sign in front of a
    negative number. (The interpreter's limit on the number of digits of a
    conversion, 4300 by default, is not modelled.) *)
Definition py_str (z : Z) : string := NilZero.string_of_int (Z.to_int z).

(** A Python [str] is modelled by the bytes of its UTF-8 form, so a string
    of ASCII characters is itself and [split('_')] cuts at the same
    places. *)
Fixpoint is_ascii (s : string) : bool :=
  match s with
  | EmptyString => true
  | String c s' => (nat_of_ascii c <? 128)%nat && is_ascii s'
  end.

(** The characters [int(...)] skips at both ends of an ASCII argument:
    tab to carriage return (9 to 13) and the space. The separators 28 to
    31, which [str.strip] drops, are not among them. *)
Definition is_space (c : ascii) : bool :=
  let n := nat_of_ascii c in
  ((9 <=? n) && (n <=? 13) || (n =? 32))%nat.

Fixpoint lstrip (s : string) : string :=
  match s with
  | String c s' => if is_space c then lstrip s' else s
  | EmptyString => EmptyString
  end.

Fixpoint rstrip (s : string) : string :=
  match s with
  | EmptyString => EmptyString
  | String c s' =>
      match rstrip s' with
      | EmptyString => if is_space c then EmptyString else String c EmptyString
      | r => String c r
      end
  end.

Definition strip (s : string) : string := rstrip (lstrip s).

(** The digits of an integer literal: at least one digit, and single
    underscores between digits only. [after_digit] tells whether the
    previous character was a digit. *)
Fixpoint literal_digits (after_digit : bool) (s : string) : option uint :=
  match s with
  | EmptyString => if after_digit then Some Nil else None
  | String c s' =>
      if Ascii.eqb c "_" then
        if after_digit then literal_digits false s' else None
      else uint_of_char c (literal_digits true s')
  end.

(** [int(s)]. For a string of ASCII characters: surrounding white space
    is dropped, one sign is allowed, [ValueError] otherwise. On other text
    the interpreter first maps the white space and the decimal digits of
    its Unicode tables to ASCII; its answer there is the input
    [int_of_text] ([None] where it raises [ValueError]). *)
Definition py_int (int_of_text : string → option Z) (s : string) : outcome Z :=
  let digits :=
    if is_ascii s then
      match strip s with
      | String "-" s' => Z.opp ∘ Z.of_uint <$> literal_digits false s'
      | String "+" s' => Z.of_uint <$> literal_digits false s'
      | s' => Z.of_uint <$> literal_digits false s'
      end
    else int_of_text s in
  match digits with
  | Some z => Returned z
  | None => Raised ValueError
  end.

(** [s.split(sep)] for a one-character separator. *)
Fixpoint split_on (sep : ascii) (s : string) : list string :=
  match s with
  | EmptyString => [EmptyString]
  | String c s' =>
      if Ascii.eqb c sep then EmptyString :: split_on sep s'
      else
        match split_on sep s' with
        | h :: t => String c h :: t
        | [] => [String c EmptyString]
        end
  end.

(** [f"{user_id}_{item_id}"]. *)
Definition q_key (user_id item_id : Z) : string :=
  py_str user_id +:+ "_" +:+ py_str item_id.

(** [user_id, item_id = map(int, key.split('_'))]: two integers exactly;
    every failure, of a conversion or of the unpacking, is a
    [ValueError]. *)
Definition parse_q_key (int_of_text : string → option Z) (key : string)
    : outcome (Z * Z) :=
  match split_on "_" key with
  | [a; b] =>
      user_id ← py_int int_of_text a; item_id ← py_int int_of_text b;
      mret (user_id, item_id)
  | _ => Raised ValueError
  end.

(** ** The persisted document and the file system *)

(** What [json.load] returns: members of an object in the order of the
    file. *)
Inductive json :=
  | JNull
  | JBool (b : bool)
  | JInt (z : Z)
  | JFloat (x : float)
  | JStr (s : string)
  | JArr (elements : list json)
  | JObj (members : list (string * json)).

(** A file holds text that [json.load] parses to a document, or text it
    rejects. [json.dump] followed by [json.load] gives back the document
    written: floats are printed with the digits that identify them. *)
Inductive file_content :=
  | JsonText (doc : json)
  | OtherText.

(** The files, and the paths [open(path, 'w')] succeeds on. *)
Record filesystem := {
  fs_files : gmap string file_content;
  fs_writable : string → bool;
}.

(** The lines the two methods print. *)
Inductive log_line :=
  | LogSaved (filepath : string) (n_q n_users n_items : nat)
  | LogSaveFailed (e : exn)
  | LogLoading (filepath : string)
  | LogQKeyError (key : string) (e : exn)
  | LogUserError (user_id_str : string) (e : exn)
  | LogItemError (item_id_str : string) (e : exn)
  | LogLoaded (n_q n_users n_items : nat)
  | LogNotFound (filepath : string)
  | LogParseFailed
  | LogLoadFailed (e : exn).

(** [d.get(name, {})] on the loaded document: [AttributeError] when the
    document is not an object. *)
Fixpoint members_get (name : string) (members : list (string * json)) : option json :=
  match members with
  | [] => None
  | (k, v) :: rest => if String.eqb k name then Some v else members_get name rest
  end.

Definition json_get (name : string) (state : json) : outcome json :=
  match state with
  | JObj members => Returned (default (JObj []) (members_get name members))
  | _ => Raised AttributeError
  end.

(** [d.items()]. *)
Definition json_items (d : json) : outcome (list (string * json)) :=
  match d with
  | JObj members => Returned members
  | _ => Raised AttributeError
  end.

(** What the code takes from the interpreter and from the terminal:
    [float(s)] for a string [s], Python's parser of decimal and special
    float literals ([None] where it raises [ValueError]); [int(s)] for a
    string that is not ASCII (see [py_int]); and whether the console can
    encode a key of the loaded document. The console is taken to encode the
    messages of the program itself and the representation of an exception,
    as one in UTF-8 does; a key that holds a lone surrogate, which a JSON
    escape can produce, is text it cannot encode. *)
Record runtime := {
  float_of_str : string → option float;
  int_of_text : string → option Z;
  console : string → bool;
}.

(** A [for] loop whose body can raise: the first exception ends it. *)
Fixpoint for_each {A S} (body : S → A → outcome unit * S) (xs : list A) (s : S)
    : outcome unit * S :=
  match xs with
  | [] => (Returned tt, s)
  | x :: rest =>
      match body s x with
      | (Returned _, s') => for_each body rest s'
      | (Raised e, s') => (Raised e, s')
      end
  end.

Section Persistence.

Variable rt : runtime.

(** [print] of the warning about the entry under [key], inside an
    [except] block: it raises [UnicodeEncodeError] when the console cannot
    encode the key. *)
Definition print_warning (key : string) (line : log_line) (out : list log_line)
    : outcome unit * list log_line :=
  if console rt key then (Returned tt, out ++ [line])
  else (Raised UnicodeEncodeError, out).

(** [float(value)] for a loaded value. *)
Definition py_float (value : json) : outcome float :=
  match value with
  | JFloat x => Returned x
  | JInt z => float_of_int z
  | JBool b => Returned (if b then 1%float else 0%float)
  | JStr s =>
      match float_of_str rt s with
      | Some x => Returned x
      | None => Raised ValueError
      end
  | JNull | JArr _ | JObj _ => Raised TypeError
  end.

Definition serialize_floats (d : gmap Z float) : json :=
  JObj ((λ '(k, v), (py_str k, JFloat v)) <$> map_to_list d).

Definition serialize (now : string) (self : SimpleRLLoop) : json :=
  JObj [ ("q_values",
          JObj ((λ '((user_id, item_id), value), (q_key user_id item_id, JFloat value))
                  <$> map_to_list (q_values self)));
         ("user_preferences",
          JObj ((λ '(user_id, prefs), (py_str user_id, serialize_floats prefs))
                  <$> map_to_list (user_preferences self)));
         ("item_popularity", serialize_floats (item_popularity self));
         ("timestamp", JStr now) ].

(** The body of the [try]: build the document, open the file, write. *)
Definition save_body (filepath now : string) (self : SimpleRLLoop) (fs : filesystem)
    : outcome unit * filesystem * list log_line :=
  let state := serialize now self in
  if fs_writable fs filepath then
    (Returned tt,
     {| fs_files := <[filepath := JsonText state]> (fs_files fs);
        fs_writable := fs_writable fs |},
     [LogSaved filepath (size (q_values self)) (size (user_preferences self))
               (size (item_popularity self))])
  else (Raised OSError, fs, []).

(** [save_state(filepath)]: [except Exception] prints and returns. *)
Definition save_state (filepath now : string) (self : SimpleRLLoop) (fs : filesystem)
    : outcome unit * SimpleRLLoop * filesystem * list log_line :=
  match save_body filepath now self fs with
  | (Returned _, fs', out) => (Returned tt, self, fs', out)
  | (Raised e, fs', out) => (Returned tt, self, fs', out ++ [LogSaveFailed e])
  end.

(** One turn of the loop over the serialized Q-values: the handler of
    the [try] prints, which can raise in its turn. *)
Definition load_q_entry (acc : gmap (Z * Z) float * list log_line)
    (entry : string * json) : outcome unit * (gmap (Z * Z) float * list log_line) :=
  let '(q, out) := acc in
  let '(key, value) := entry in
  match (k ← parse_q_key (int_of_text rt) key; x ← py_float value; mret (k, x)) with
  | Returned (k, x) => (Returned tt, (<[k := x]> q, out))
  | Raised e =>
      let '(printed, out') := print_warning key (LogQKeyError key e) out in
      (printed, (q, out'))
  end.

(** [p[user_id][item_id] = x]. *)
Definition prefs_set (p : gmap Z (gmap Z float)) (user_id item_id : Z) (x : float)
    : gmap Z (gmap Z float) :=
  let '(inner, p1) := prefs_getitem p user_id in
  <[user_id := <[item_id := x]> inner]> p1.

(** The inner loop over one user's preferences: it stops at the first
    entry that does not convert. *)
Fixpoint load_pref_items (user_id : Z) (entries : list (string * json))
    (p : gmap Z (gmap Z float)) : outcome unit * gmap Z (gmap Z float) :=
  match entries with
  | [] => (Returned tt, p)
  | (item_id_str, value) :: rest =>
      match (item_id ← py_int (int_of_text rt) item_id_str; x ← py_float value;
             mret (item_id, x)) with
      | Returned (item_id, x) => load_pref_items user_id rest (prefs_set p user_id item_id x)
      | Raised e => (Raised e, p)
      end
  end.

(** One turn of the loop over the users: the [try] covers the user's
    whole mapping, and its handler prints. *)
Definition load_pref_user (acc : gmap Z (gmap Z float) * list log_line)
    (entry : string * json) : outcome unit * (gmap Z (gmap Z float) * list log_line) :=
  let '(p, out) := acc in
  let '(user_id_str, prefs) := entry in
  let handler e p' :=
    let '(printed, out') := print_warning user_id_str (LogUserError user_id_str e) out in
    (printed, (p', out')) in
  match (user_id ← py_int (int_of_text rt) user_id_str; entries ← json_items prefs;
         mret (user_id, entries)) with
  | Raised e => handler e p
  | Returned (user_id, entries) =>
      match load_pref_items user_id entries p with
      | (Returned _, p') => (Returned tt, (p', out))
      | (Raised e, p') => handler e p'
      end
  end.

(** One turn of the loop over the popularity scores. *)
Definition load_pop_entry (acc : gmap Z float * list log_line)
    (entry : string * json) : outcome unit * (gmap Z float * list log_line) :=
  let '(pop, out) := acc in
  let '(item_id_str, value) := entry in
  match (item_id ← py_int (int_of_text rt) item_id_str; x ← py_float value;
         mret (item_id, x)) with
  | Returned (item_id, x) => (Returned tt, (<[item_id := x]> pop, out))
  | Raised e =>
      let '(printed, out') := print_warning item_id_str (LogItemError item_id_str e) out in
      (printed, (pop, out'))
  end.

(** The body of the outer [try], after the file was read: each mapping is
    emptied just before its section is looked up and filled entry by
    entry, so an exception in a section leaves that mapping with what was
    assigned so far and the later mappings as they were. *)
Definition load_document (filepath : string) (state : json) (self : SimpleRLLoop)
    : outcome unit * SimpleRLLoop * list log_line :=
  let out := [LogLoading filepath] in
  let self := {| q_values := ∅; user_preferences := user_preferences self;
                 item_popularity := item_popularity self |} in
  match json_get "q_values" state ≫= json_items with
  | Raised e => (Raised e, self, out)
  | Returned entries =>
  match for_each load_q_entry entries (∅, out) with
  | (Raised e, (q, out)) =>
      (Raised e,
       {| q_values := q; user_preferences := user_preferences self;
          item_popularity := item_popularity self |},
       out)
  | (Returned _, (q, out)) =>
  let self := {| q_values := q; user_preferences := ∅;
                 item_popularity := item_popularity self |} in
  match json_get "user_preferences" state ≫= json_items with
  | Raised e => (Raised e, self, out)
  | Returned entries =>
  match for_each load_pref_user entries (∅, out) with
  | (Raised e, (p, out)) =>
      (Raised e,
       {| q_values := q; user_preferences := p;
          item_popularity := item_popularity self |},
       out)
  | (Returned _, (p, out)) =>
  let self := {| q_values := q; user_preferences := p; item_popularity := ∅ |} in
  match json_get "item_popularity" state ≫= json_items with
  | Raised e => (Raised e, self, out)
  | Returned entries =>
  match for_each load_pop_entry entries (∅, out) with
  | (Raised e, (pop, out)) =>
      (Raised e, {| q_values := q; user_preferences := p; item_popularity := pop |}, out)
  | (Returned _, (pop, out)) =>
  (Returned tt,
   {| q_values := q; user_preferences := p; item_popularity := pop |},
   out ++ [LogLoaded (size q) (size p) (size pop)])
  end end end end end end.

(** The body of the outer [try]. *)
Definition load_body (filepath : string) (self : SimpleRLLoop) (fs : filesystem)
    : outcome unit * SimpleRLLoop * list log_line :=
  match fs_files fs !! filepath with
  | None => (Raised FileNotFoundError, self, [])
  | Some OtherText => (Raised JSONDecodeError, self, [])
  | Some (JsonText state) => load_document filepath state self
  end.

(** [load_state(filepath)] with its three handlers. *)
Definition load_state (filepath : string) (self : SimpleRLLoop) (fs : filesystem)
    : outcome unit * SimpleRLLoop * list log_line :=
  match load_body filepath self fs with
  | (Returned _, self', out) => (Returned tt, self', out)
  | (Raised FileNotFoundError, self', out) => (Returned tt, self', out ++ [LogNotFound filepath])
  | (Raised JSONDecodeError, self', out) => (Returned tt, self', out ++ [LogParseFailed])
  | (Raised e, self', out) => (Returned tt, self', out ++ [LogLoadFailed e])
  end.

End Persistence.

(** ** The log of shown recommendations and the summary *)

(** One element of [self.state_action_history]. *)
Record state_action := {
  sa_state_id : string;
  sa_user_id : Z;
  sa_timestamp : string;
  sa_action : string;
  sa_recommendations : list (Z * option string);
  sa_reward : option float;
  sa_completed : bool;
}.

(** The whole object: the three learned mappings and
    [self.state_action_history]. The update rules, the recommender and the
    persistence methods read and write the mappings only. *)
Record rl_object := {
  learned : SimpleRLLoop;
  state_action_history : list state_action;
}.

(** [SimpleRLLoop()]. *)
Definition new_object : rl_object :=
  {| learned := init; state_action_history := [] |}.

(** [r.get(name)] on the other fields of an item. *)
Fixpoint field_get (name : string) (fields : list (string * string)) : option string :=
  match fields with
  | [] => None
  | (k, v) :: rest => if String.eqb k name then Some v else field_get name rest
  end.

(** [record_recommendation_shown(user_id, recommendations)]; [state_id] is
    [str(uuid.uuid4())] and [now] is [datetime.now().isoformat()]. *)
Definition record_recommendation_shown (user_id : Z) (recommendations : list scored_item)
    (state_id now : string) (self : rl_object) : string * rl_object :=
  let state_action :=
    {| sa_state_id := state_id;
       sa_user_id := user_id;
       sa_timestamp := now;
       sa_action := "show_recommendations";
       sa_recommendations :=
         (λ r, (mi_item_id (si_item r), field_get "name" (mi_fields (si_item r))))
           <$> take 5 recommendations;
       sa_reward := None;
       sa_completed := false |} in
  (state_id,
   {| learned := learned self;
      state_action_history := state_action_history self ++ [state_action] |}).

(** [sorted(xs, key=key, reverse=True)] for a key that is a float, as
    [sorted_desc] above and with the same limit: it is Python's order when
    no key is NaN. *)
Fixpoint insert_by_desc {A} (key : A → float) (x : A) (l : list A) : list A :=
  match l with
  | [] => [x]
  | y :: l' => if (key x <? key y)%float then y :: insert_by_desc key x l' else x :: l
  end.

Definition sorted_by_desc {A} (key : A → float) (l : list A) : list A :=
  foldr (insert_by_desc key) [] l.

(** The dictionary [get_state_summary] returns. *)
Record state_summary := {
  ss_user_id : Z;
  ss_learned_items : nat;
  ss_top_items : list (Z * float);
  ss_total_interactions : nat;
}.

Section StateSummary.

(** [d.items()] lists the entries of a [dict] in the order of their
    insertion, which a finite map does not record: the order is an input. *)
Variable dict_items : gmap Z float → list (Z * float).

(** [get_state_summary(user_id)]. *)
Definition get_state_summary (user_id : Z) (self : rl_object) : state_summary :=
  let user_prefs := default ∅ (user_preferences (learned self) !! user_id) in
  let top_items := take 5 (sorted_by_desc snd (dict_items user_prefs)) in
  {| ss_user_id := user_id;
     ss_learned_items := size user_prefs;
     ss_top_items := top_items;
     ss_total_interactions :=
       length (filter (λ h, sa_user_id h = user_id) (state_action_history self)) |}.

End StateSummary.

(** ** The caller: checkout in the orchestrators *)

(** A line of the cart as [checkout] reads it: ['item_id'] and
    ['quantity']. (The name and the prices of a line only travel on to the
    database.) *)
Record cart_item := {
  ci_item_id : Z;
  ci_quantity : Z;
}.

(** What [checkout] reads of the dictionary that
    [self.cart.get_cart_state()] returns. *)
Record cart_state := {
  cs_items : list cart_item;
  cs_minimum_order_met : bool;
  cs_total : float;
}.

(** The answers of the collaborators during one call of [checkout]:
    whether [self.cart] and [self.db] are set, the cart state, the address
    and the new order identifier ([None] for none) that the database
    returns, each of which can raise, and the two readings of the clock. *)
Record checkout_env := {
  env_services : bool;
  env_cart_state : outcome cart_state;
  env_address : outcome string;
  env_create_order : outcome (option Z);
  env_now_order : string;
  env_now_save : string;
}.

(** The dictionary [checkout] returns, by case. *)
Inductive checkout_response :=
  | ServiceUnavailable
  | CartEmpty
  | MinimumNotMet
  | OrderNotCreated
  | CheckoutError (e : exn)
  | OrderPlaced (order_id : Z) (total : float) (delivery_address : string) (rl_reward : float).

(** The response, the loop and the files after the call, and whether the
    cart was cleared. *)
Record checkout_result := {
  cr_response : checkout_response;
  cr_loop : SimpleRLLoop;
  cr_files : filesystem;
  cr_cart_cleared : bool;
}.

(** [formatted_items] and [order_data]. *)
Definition order_of_cart (cart : cart_state) : order_data :=
  {| od_items :=
       Some ((λ item, {| li_item_id := ci_item_id item;
                         li_quantity := Some (ci_quantity item) |}) <$> cs_items cart);
     od_total := Some (cs_total cart) |}.

(** [if order_id:] -- [None] and 0 are false. *)
Definition order_id_given (order_id : option Z) : option Z :=
  match order_id with
  | Some id => if id =? 0 then None else Some id
  | None => None
  end.

(** [checkout()] of both orchestrators; every exception ends in the
    [except Exception] of the method. *)
Definition checkout (user_id : Z) (env : checkout_env) (self : SimpleRLLoop)
    (fs : filesystem) : checkout_result :=
  let stop response :=
    {| cr_response := response; cr_loop := self; cr_files := fs;
       cr_cart_cleared := false |} in
  if negb (env_services env) then stop ServiceUnavailable else
  match env_cart_state env with
  | Raised e => stop (CheckoutError e)
  | Returned cart =>
  match cs_items cart with
  | [] => stop CartEmpty
  | _ :: _ =>
  if negb (cs_minimum_order_met cart) then stop MinimumNotMet else
  match env_address env with
  | Raised e => stop (CheckoutError e)
  | Returned delivery_address =>
  match env_create_order env with
  | Raised e => stop (CheckoutError e)
  | Returned order_id =>
  match order_id_given order_id with
  | None => stop OrderNotCreated
  | Some id =>
      match record_order_completed user_id (order_of_cart cart) (env_now_order env) self with
      | (Raised e, self1) =>
          {| cr_response := CheckoutError e; cr_loop := self1; cr_files := fs;
             cr_cart_cleared := false |}
      | (Returned reward_info, self1) =>
          let '(_, self2, fs', _) :=
            save_state "rl_state.json" (env_now_save env) self1 fs in
          {| cr_response :=
               OrderPlaced id (cs_total cart) delivery_address (ri_reward reward_info);
             cr_loop := self2; cr_files := fs'; cr_cart_cleared := true |}
      end
  end end end end end.

(** [__init__] of both orchestrators, the two lines on the loop:
    [self.rl_loop = SimpleRLLoop()] and [self.rl_loop.load_state()]. *)
Definition start_rl_loop (rt : runtime) (fs : filesystem)
    : outcome unit * SimpleRLLoop * list log_line :=
  load_state rt "rl_state.json" init fs.

(** * Part II: vocabulary of the statements

    ** Runs of update events *)

(** A run of update events, as the orchestration layer issues them. *)
Inductive event :=
  | ItemSelected (user_id item_id : Z) (state_id : option string)
  | OrderCompleted (user_id : Z) (order : order_data) (now : string)
  | UserFeedback (user_id item_id : Z) (feedback_score : float).

Definition apply_event (self : SimpleRLLoop) (ev : event) : SimpleRLLoop :=
  match ev with
  | ItemSelected u i sid => record_item_selected u i sid self
  | OrderCompleted u o now => snd (record_order_completed u o now self)
  | UserFeedback u i s => record_user_feedback u i s self
  end.

Definition run_events (evs : list event) (self : SimpleRLLoop) : SimpleRLLoop :=
  fold_left apply_event evs self.

(** ** Accumulated increments *)

(** The entry that results from adding the increments [xs], in order, to an
    entry [old] of a [defaultdict(float)]: untouched when there is nothing
    to add, otherwise the running binary64 sum started from the old value
    (0.0 when absent). *)
Definition accumulate (old : option float) (xs : list float) : option float :=
  match xs with
  | [] => old
  | _ => Some (fold_left PrimFloat.add xs (default 0%float old))
  end.

(** The lines of an order that name item [i]. *)
Definition lines_for (i : Z) (items : list line_item) : list line_item :=
  filter (λ it, li_item_id it = i) items.

(** Every quantity of the order converts to a binary64 number. *)
Definition quantities_convert (items : list line_item) : Prop :=
  Forall (λ it, float_of_int (quantity_of it) = Returned (nearest_float (quantity_of it))) items.

(** What an order adds to the entries of [user_id]: the reward once per line
    naming the item, and half the quantity of each such line. *)
Definition reward_increments (reward : float) (i : Z) (items : list line_item) : list float :=
  (λ _, reward) <$> lines_for i items.

Definition popularity_increments (i : Z) (items : list line_item) : list float :=
  (λ it, nearest_float (quantity_of it) * 0.5)%float <$> lines_for i items.

(** ** Inputs of the examples *)

Definition example_order : order_data :=
  {| od_items := Some [ {| li_item_id := 11; li_quantity := Some 2 |};
                        {| li_item_id := 12; li_quantity := Some 1 |} ];
     od_total := Some 600%float |}.

Definition four_candidates : list menu_item :=
  [ {| mi_item_id := 1; mi_fields := [] |}; {| mi_item_id := 2; mi_fields := [] |};
    {| mi_item_id := 3; mi_fields := [] |}; {| mi_item_id := 4; mi_fields := [] |} ].

Definition exploring_rng : rng :=
  {| rnd_random := 0.05%float; rnd_draw := λ _, 0%nat |}.

(** ** What a load restores *)

Fixpoint has_char (c : ascii) (s : string) : bool :=
  match s with
  | EmptyString => false
  | String c' s' => Ascii.eqb c' c || has_char c s'
  end.

(** The mapping a sequence of assignments [d[k] = x] builds from [d0]. *)
Definition assign_all `{Countable K} {V} (entries : list (K * V)) (d0 : gmap K V)
    : gmap K V :=
  fold_left (λ d '(k, x), <[k := x]> d) entries d0.

Section LoadVocabulary.

Variable rt : runtime.

(** The entries of each section that convert, in the order of the file,
    and the warnings for those that do not. *)
Definition q_entry (entry : string * json) : outcome ((Z * Z) * float) :=
  k ← parse_q_key (int_of_text rt) entry.1; x ← py_float rt entry.2; mret (k, x).

Definition pop_entry (entry : string * json) : outcome (Z * float) :=
  i ← py_int (int_of_text rt) entry.1; x ← py_float rt entry.2; mret (i, x).

Definition converted {A B} (conv : A → outcome B) (entries : list A) : list B :=
  omap (λ e, match conv e with Returned b => Some b | Raised _ => None end) entries.

Definition warnings {A B} (conv : A → outcome B) (warn : A → exn → log_line)
    (entries : list A) : list log_line :=
  omap (λ e, match conv e with Returned _ => None | Raised x => Some (warn e x) end)
       entries.

(** The entries of one user that are restored: those before the first
    one that does not convert. *)
Fixpoint converted_prefix (entries : list (string * json)) : list (Z * float) :=
  match entries with
  | [] => []
  | entry :: rest =>
      match pop_entry entry with
      | Returned ix => ix :: converted_prefix rest
      | Raised _ => []
      end
  end.

(** The exception that ends the loop over one user's entries, if any. *)
Fixpoint first_failure (entries : list (string * json)) : option exn :=
  match entries with
  | [] => None
  | entry :: rest =>
      match pop_entry entry with
      | Returned _ => first_failure rest
      | Raised e => Some e
      end
  end.

Definition user_entries (entry : string * json) : list ((Z * Z) * float) :=
  match py_int (int_of_text rt) entry.1, json_items entry.2 with
  | Returned u, Returned entries => (λ '(i, x), ((u, i), x)) <$> converted_prefix entries
  | _, _ => []
  end.

Definition user_warning (entry : string * json) : option log_line :=
  match py_int (int_of_text rt) entry.1, json_items entry.2 with
  | Returned u, Returned entries => LogUserError entry.1 <$> first_failure entries
  | Raised e, _ => Some (LogUserError entry.1 e)
  | Returned _, Raised e => Some (LogUserError entry.1 e)
  end.

End LoadVocabulary.

(** The two-level mapping of preferences read as one mapping on
    (user, item) pairs. *)
Definition flat_prefs (p : gmap Z (gmap Z float)) (m : gmap (Z * Z) float) : Prop :=
  ∀ u i, pref_lookup p u i = m !! (u, i).

(** No user of [p] has an empty mapping. *)
Definition no_empty_user (p : gmap Z (gmap Z float)) : Prop :=
  ∀ u inner, p !! u = Some inner → inner ≠ ∅.

(** The assignments [p[u][i] = x], in order. *)
Definition set_all (entries : list ((Z * Z) * float)) (p : gmap Z (gmap Z float))
    : gmap Z (gmap Z float) :=
  fold_left (λ p '((u, i), x), prefs_set p u i x) entries p.

(** The document has the expected structure: an object whose sections
    ['q_values'], ['user_preferences'] and ['item_popularity'], where
    present, are objects; [qs], [us] and [ps] are their members (none for an
    absent section). *)
Definition well_structured (state : json) (qs us ps : list (string * json)) : Prop :=
  json_get "q_values" state ≫= json_items = Returned qs ∧
  json_get "user_preferences" state ≫= json_items = Returned us ∧
  json_get "item_popularity" state ≫= json_items = Returned ps.

(** What [load_state] leaves and prints for such a document. *)
Definition loaded_state rt (qs us ps : list (string * json)) : SimpleRLLoop :=
  {| q_values := assign_all (converted (q_entry rt) qs) ∅;
     user_preferences := set_all (us ≫= user_entries rt) ∅;
     item_popularity := assign_all (converted (pop_entry rt) ps) ∅ |}.

Definition loaded_output rt (filepath : string)
    (qs us ps : list (string * json)) : list log_line :=
  let self' := loaded_state rt qs us ps in
  [LogLoading filepath]
  ++ warnings (q_entry rt) (λ e, LogQKeyError e.1) qs
  ++ omap (user_warning rt) us
  ++ warnings (pop_entry rt) (λ e, LogItemError e.1) ps
  ++ [LogLoaded (size (q_values self')) (size (user_preferences self'))
                (size (item_popularity self'))].

(** The lines the console can encode: a warning depends on the key it
    reports. *)
Definition printable (rt : runtime) (line : log_line) : bool :=
  match line with
  | LogQKeyError key _ | LogUserError key _ | LogItemError key _ => console rt key
  | _ => true
  end.

(** An interpreter whose [float] accepts no string and whose [int] accepts
    ASCII text only, on a console that encodes every key; and the same on
    a console that encodes no key. *)
Definition example_runtime : runtime :=
  {| float_of_str := λ _, None; int_of_text := λ _, None; console := λ _, true |}.

Definition mute_runtime : runtime :=
  {| float_of_str := λ _, None; int_of_text := λ _, None; console := λ _, false |}.

Definition no_files : filesystem :=
  {| fs_files := ∅; fs_writable := λ _, true |}.

Definition read_only_files : filesystem :=
  {| fs_files := ∅; fs_writable := λ _, false |}.

Definition corrupt_q_document : json :=
  JObj [ ("q_values", JObj [ ("3_7", JFloat 0.5%float); ("abc_xyz", JFloat 0.9%float);
                              ("4_1", JInt 2) ]);
         ("user_preferences", JObj [ ("3", JObj [ ("7", JFloat 0.2%float) ]) ]);
         ("item_popularity", JObj [ ("7", JFloat 1.5%float) ]);
         ("timestamp", JStr "2024-01-01T12:00:00") ].

Definition corrupt_q_files : filesystem :=
  {| fs_files := {[ "rl_state.json" := JsonText corrupt_q_document ]};
     fs_writable := λ _, true |}.

Definition corrupt_prefs_document : json :=
  JObj [ ("q_values", JObj []);
         ("user_preferences",
          JObj [ ("3", JObj [ ("1", JFloat 0.5%float); ("abc", JFloat 0.2%float);
                               ("2", JFloat 0.7%float) ]) ]);
         ("item_popularity", JObj []) ].

Definition corrupt_prefs_files : filesystem :=
  {| fs_files := {[ "rl_state.json" := JsonText corrupt_prefs_document ]};
     fs_writable := λ _, true |}.

(** ** What a save writes *)

Definition encode_float (entry : Z * float) : string * json :=
  (py_str entry.1, JFloat entry.2).

(** The entries of the two-level mapping, user by user. *)
Definition flatten_prefs (p : gmap Z (gmap Z float)) : list ((Z * Z) * float) :=
  map_to_list p ≫= (λ '(u, inner), (λ '(i, x), ((u, i), x)) <$> map_to_list inner).

Definition encode_user (entry : Z * gmap Z float) : string * json :=
  (py_str entry.1, serialize_floats entry.2).

Definition encode_q (entry : (Z * Z) * float) : string * json :=
  (q_key entry.1.1 entry.1.2, JFloat entry.2).

(** The quantities of every order of the run convert to binary64 numbers,
    so that no event of the run raises. *)
Definition event_converts (ev : event) : Prop :=
  match ev with
  | OrderCompleted _ order _ => quantities_convert (items_of order)
  | _ => True
  end.

Definition example_loop : SimpleRLLoop :=
  record_user_feedback 3 7 4.5%float
    (record_item_selected 3 8 None (record_item_selected (-1) 7 None init)).

(** ** Numbers that are not negative *)

(** A number that is not negative: a zero, a positive finite number or
    positive infinity; not NaN. *)
Definition SF_nonneg (x : spec_float) : bool :=
  match x with
  | S754_zero _ => true
  | S754_infinity s => negb s
  | S754_nan => false
  | S754_finite s _ _ => negb s
  end.

Definition nonneg (x : float) : bool := (0 <=? x)%float.

(** Every stored score [v] satisfies [0 <= v]. *)
Definition scores_nonneg (self : SimpleRLLoop) : Prop :=
  (∀ k v, q_values self !! k = Some v → nonneg v = true) ∧
  (∀ u i v, pref_lookup (user_preferences self) u i = Some v → nonneg v = true) ∧
  (∀ i v, item_popularity self !! i = Some v → nonneg v = true).

(** The inputs of an event are numbers that are not negative: the feedback
    score, and the quantities, which are moreover below 2^63. *)
Definition event_nonneg (ev : event) : Prop :=
  match ev with
  | ItemSelected _ _ _ => True
  | OrderCompleted _ order _ => Forall (λ it, 0 ≤ quantity_of it < 2 ^ 63) (items_of order)
  | UserFeedback _ _ s => nonneg s = true
  end.

Definition example_events : list event :=
  [ ItemSelected 1 11 None;
    OrderCompleted 1 example_order "2024-01-01T12:00:00";
    UserFeedback 1 11 4.5%float ].

(** ** Calls on the whole object *)

(** A call on the object, as the orchestration layer makes them: a set of
    recommendations was shown, or one of the update events. *)
Inductive call :=
  | Shown (user_id : Z) (recommendations : list scored_item) (state_id now : string)
  | Update (ev : event).

Definition apply_call (self : rl_object) (c : call) : rl_object :=
  match c with
  | Shown u recs state_id now => (record_recommendation_shown u recs state_id now self).2
  | Update ev =>
      {| learned := apply_event (learned self) ev;
         state_action_history := state_action_history self |}
  end.

Definition run_calls (cs : list call) (self : rl_object) : rl_object :=
  fold_left apply_call cs self.

(** The number of calls of [cs] that showed recommendations to [u]. *)
Fixpoint shown_to (u : Z) (cs : list call) : nat :=
  match cs with
  | [] => 0
  | Shown u' _ _ _ :: rest => if decide (u' = u) then S (shown_to u rest) else shown_to u rest
  | Update _ :: rest => shown_to u rest
  end.

(** A float that is not NaN: it equals itself. *)
Definition is_number (x : float) : bool := (x =? x)%float.

Definition SF_number (x : spec_float) : bool :=
  match x with
  | S754_nan => false
  | _ => true
  end.

(** A list in descending order of a float key: the key of each element is
    at least the key of every later element. *)
Definition descending {A} (key : A → float) (l : list A) : Prop :=
  StronglySorted (λ x y, (key y <=? key x)%float = true) l.

(** ** Candidates with their scores *)

(** A candidate as the scoring loop annotates it for [user_id]. *)
Definition annotate (user_id : Z) (self : SimpleRLLoop) (item : menu_item) : scored_item :=
  (score_item user_id (default ∅ (user_preferences self !! user_id)) item self).1.

(** ** Events and their users *)

(** The user an update event belongs to. *)
Definition event_user (ev : event) : Z :=
  match ev with
  | ItemSelected u _ _ => u
  | OrderCompleted u _ _ => u
  | UserFeedback u _ _ => u
  end.

(** A selection as a (user, item) pair, and a batch of selections applied
    in order. *)
Definition select_all (pairs : list (Z * Z)) (self : SimpleRLLoop) : SimpleRLLoop :=
  fold_left (λ s '(u, i), record_item_selected u i None s) pairs self.

(** The entries of [self] are entries of [self'], possibly with other
    values. *)
Definition keys_kept (self self' : SimpleRLLoop) : Prop :=
  (∀ k, is_Some (q_values self !! k) → is_Some (q_values self' !! k)) ∧
  (∀ u i, is_Some (pref_lookup (user_preferences self) u i) →
          is_Some (pref_lookup (user_preferences self') u i)) ∧
  (∀ u, is_Some (user_preferences self !! u) → is_Some (user_preferences self' !! u)) ∧
  (∀ i, is_Some (item_popularity self !! i) → is_Some (item_popularity self' !! i)).

Definition overflowing_order : order_data :=
  {| od_items := Some [ {| li_item_id := 11; li_quantity := Some 2 |};
                        {| li_item_id := 12; li_quantity := Some (2 ^ 1024) |};
                        {| li_item_id := 13; li_quantity := Some 1 |} ];
     od_total := Some 100%float |}.

(** ** Keys of the saved document *)

(** The number of occurrences of a character in a string. *)
Fixpoint count_char (c : ascii) (s : string) : nat :=
  match s with
  | EmptyString => 0
  | String c' s' => if Ascii.eqb c' c then S (count_char c s') else count_char c s'
  end.

(** A document that is an array, not an object. *)
Definition array_document : json := JArr [].

Definition array_files : filesystem :=
  {| fs_files := {[ "rl_state.json" := JsonText array_document ]};
     fs_writable := λ _, true |}.

(** ** Checkout *)

(** The collaborators let the call reach the creation of the order and the
    database returns an order identifier. *)
Definition order_created (env : checkout_env) : option (cart_state * string * Z) :=
  if env_services env then
    match env_cart_state env, env_address env, env_create_order env with
    | Returned cart, Returned delivery_address, Returned order_id =>
        match cs_items cart, cs_minimum_order_met cart, order_id_given order_id with
        | _ :: _, true, Some id => Some (cart, delivery_address, id)
        | _, _, _ => None
        end
    | _, _, _ => None
    end
  else None.

Definition example_cart : cart_state :=
  {| cs_items := [ {| ci_item_id := 11; ci_quantity := 2 |};
                   {| ci_item_id := 12; ci_quantity := 1 |} ];
     cs_minimum_order_met := true;
     cs_total := 600%float |}.

Definition example_env : checkout_env :=
  {| env_services := true;
     env_cart_state := Returned example_cart;
     env_address := Returned "12 High Street";
     env_create_order := Returned (Some 41);
     env_now_order := "2024-01-01T12:00:00";
     env_now_save := "2024-01-01T12:00:01" |}.

Definition failing_env : checkout_env :=
  {| env_services := true;
     env_cart_state := Returned example_cart;
     env_address := Returned "12 High Street";
     env_create_order := Raised OSError;
     env_now_order := "2024-01-01T12:00:00";
     env_now_save := "2024-01-01T12:00:01" |}.

Definition example_object : rl_object :=
  {| learned := example_loop; state_action_history := [] |}.

(** * Part III: properties

    ** The mappings *)

Section DefaultdictFacts.

Context {K : Type} `{Countable K}.

Implicit Types (d : gmap K float) (k : K) (x : float).

Lemma dd_iadd_lookup d k x :
  dd_iadd d k x !! k = Some (default 0%float (d !! k) + x)%float.
Proof. unfold dd_iadd, dict_get. by rewrite lookup_insert_eq. Qed.

Lemma dd_iadd_lookup_ne d k k' x :
  k ≠ k' → dd_iadd d k x !! k' = d !! k'.
Proof. intros. unfold dd_iadd. by rewrite lookup_insert_ne. Qed.

Lemma accumulate_cons (old : option float) x xs :
  accumulate old (x :: xs) = accumulate (Some (default 0%float old + x)%float) xs.
Proof. destruct xs; reflexivity. Qed.

Lemma accumulate_step d k x xs :
  accumulate (d !! k) (x :: xs) = accumulate (dd_iadd d k x !! k) xs.
Proof. by rewrite accumulate_cons, dd_iadd_lookup. Qed.

End DefaultdictFacts.

Lemma pref_lookup_touch p u u' i :
  pref_lookup (snd (prefs_getitem p u)) u' i = pref_lookup p u' i.
Proof.
  unfold pref_lookup, prefs_getitem. destruct (p !! u) as [inner|] eqn:E; simpl; [done|].
  rewrite lookup_insert. case_decide; subst; simpl; [by rewrite E | done].
Qed.

Lemma prefs_iadd_lookup p u i x :
  pref_lookup (prefs_iadd p u i x) u i
  = Some (default 0%float (pref_lookup p u i) + x)%float.
Proof.
  unfold prefs_iadd, prefs_getitem, pref_lookup.
  destruct (p !! u) as [inner|] eqn:E; simpl;
    rewrite lookup_insert_eq; simpl; by rewrite dd_iadd_lookup.
Qed.

Lemma prefs_iadd_lookup_item_ne p u i i' x :
  i ≠ i' → pref_lookup (prefs_iadd p u i x) u i' = pref_lookup p u i'.
Proof.
  intros Hne. unfold prefs_iadd, prefs_getitem, pref_lookup.
  destruct (p !! u) as [inner|] eqn:E; simpl;
    rewrite lookup_insert_eq; simpl; by rewrite dd_iadd_lookup_ne.
Qed.

Lemma prefs_iadd_lookup_user_ne p u u' i x :
  u ≠ u' → prefs_iadd p u i x !! u' = p !! u'.
Proof.
  intros Hne. unfold prefs_iadd, prefs_getitem.
  destruct (p !! u) as [inner|] eqn:E; simpl;
    rewrite !lookup_insert_ne by done; done.
Qed.

Lemma prefs_getitem_user_ne p u u' :
  u ≠ u' → snd (prefs_getitem p u) !! u' = p !! u'.
Proof.
  intros Hne. unfold prefs_getitem.
  destruct (p !! u); simpl; [done | by rewrite lookup_insert_ne].
Qed.

(** ** Order completion *)

Lemma lines_for_cons i it items :
  lines_for i (it :: items)
  = if decide (li_item_id it = i) then it :: lines_for i items else lines_for i items.
Proof. unfold lines_for. rewrite filter_cons. by case_decide. Qed.

Lemma order_line_returns user reward it self :
  float_of_int (quantity_of it) = Returned (nearest_float (quantity_of it)) →
  order_line user reward it self =
    (Returned tt,
     {| q_values := dd_iadd (q_values self) (user, li_item_id it) reward;
        item_popularity :=
          dd_iadd (item_popularity self) (li_item_id it)
                  (nearest_float (quantity_of it) * 0.5)%float;
        user_preferences :=
          prefs_iadd (snd (prefs_getitem (user_preferences self) user))
                     user (li_item_id it) reward |}).
Proof. intros Hq. unfold order_line. by rewrite Hq. Qed.

Lemma order_loop_post user reward items : ∀ self,
  quantities_convert items →
  ∃ self',
    order_loop user reward items self = (Returned tt, self') ∧
    (∀ i, q_values self' !! (user, i)
          = accumulate (q_values self !! (user, i)) (reward_increments reward i items)) ∧
    (∀ u i, u ≠ user → q_values self' !! (u, i) = q_values self !! (u, i)) ∧
    (∀ i, pref_lookup (user_preferences self') user i
          = accumulate (pref_lookup (user_preferences self) user i)
                       (reward_increments reward i items)) ∧
    (∀ u, u ≠ user → user_preferences self' !! u = user_preferences self !! u) ∧
    (∀ i, item_popularity self' !! i
          = accumulate (item_popularity self !! i) (popularity_increments i items)).
Proof.
  induction items as [|it rest IH]; intros self Hconv.
  - exists self. by repeat split.
  - apply Forall_cons in Hconv as [Hit Hrest]. simpl.
    rewrite (order_line_returns _ _ _ _ Hit).
    match goal with |- context [order_loop _ _ rest ?s] =>
      destruct (IH s Hrest) as (self' & Hrun & Hq & Hqo & Hp & Hpo & Hpop) end.
    exists self'. split; [exact Hrun|]. simpl in *.
    unfold reward_increments, popularity_increments in *.
    repeat split.
    + intros i. rewrite Hq, lines_for_cons. case_decide as Hi.
      * subst i. rewrite fmap_cons. by rewrite accumulate_step.
      * rewrite dd_iadd_lookup_ne; [done | congruence].
    + intros u i Hu. rewrite Hqo by done. rewrite dd_iadd_lookup_ne; [done | congruence].
    + intros i. rewrite Hp, lines_for_cons. case_decide as Hi.
      * subst i. rewrite fmap_cons, accumulate_cons.
        by rewrite prefs_iadd_lookup, pref_lookup_touch.
      * by rewrite prefs_iadd_lookup_item_ne, pref_lookup_touch.
    + intros u Hu. rewrite Hpo by done.
      rewrite prefs_iadd_lookup_user_ne by done. by apply prefs_getitem_user_ne.
    + intros i. rewrite Hpop, lines_for_cons. case_decide as Hi.
      * subst i. rewrite fmap_cons. by rewrite accumulate_step.
      * by rewrite dd_iadd_lookup_ne.
Qed.

(** The four values the reward takes. *)
Lemma order_reward_cases n total :
  order_reward n total =
    match (500 <? total)%float, (3 <? n)%nat with
    | true, true => 1.8%float
    | true, false => 1.5%float
    | false, true => 1.3%float
    | false, false => 1.0%float
    end.
Proof. unfold order_reward. by destruct (500 <? total)%float, (3 <? n)%nat. Qed.



(** ** Item selection *)

Lemma accumulate_snoc old xs x :
  accumulate old (xs ++ [x]) = Some (default 0%float (accumulate old xs) + x)%float.
Proof.
  unfold accumulate. destruct xs as [|y ys]; simpl; [done|].
  by rewrite fold_left_app.
Qed.

Lemma replicate_snoc {A} n (x : A) : replicate (S n) x = replicate n x ++ [x].
Proof. induction n as [|n IH]; simpl in *; [done | by rewrite <- IH]. Qed.

(** C3 (as amended). Item selection, n times: the Q-value of (U, I) becomes
    the old value (0.0 when absent) after n successive binary64 additions
    of alpha = 0.1, its preference weight after n additions of 0.2, the
    popularity of I after n additions of 0.1, and every other entry of the
    three mappings is unchanged. The sums equal n*alpha, n*0.2 and n*0.1 up
    to rounding only. *)
Theorem record_item_selected_iter (n : nat) (U I : Z) sid self :
  let self' := Nat.iter n (record_item_selected U I sid) self in
  q_values self' !! (U, I) = accumulate (q_values self !! (U, I)) (replicate n alpha) ∧
  (∀ k, k ≠ (U, I) → q_values self' !! k = q_values self !! k) ∧
  pref_lookup (user_preferences self') U I
    = accumulate (pref_lookup (user_preferences self) U I) (replicate n 0.2%float) ∧
  (∀ i, i ≠ I → pref_lookup (user_preferences self') U i
                 = pref_lookup (user_preferences self) U i) ∧
  (∀ u, u ≠ U → user_preferences self' !! u = user_preferences self !! u) ∧
  item_popularity self' !! I
    = accumulate (item_popularity self !! I) (replicate n 0.1%float) ∧
  (∀ i, i ≠ I → item_popularity self' !! i = item_popularity self !! i).
Proof.
  induction n as [|n IH]; [by repeat split|].
  destruct IH as (Hq & Hqo & Hp & Hpi & Hpu & Hpop & Hpopo).
  cbn zeta. rewrite Nat.iter_succ. rewrite !replicate_snoc, !accumulate_snoc.
  cbn [record_item_selected q_values user_preferences item_popularity].
  repeat split.
  - by rewrite dd_iadd_lookup, Hq.
  - intros k Hk. rewrite dd_iadd_lookup_ne by done. by apply Hqo.
  - by rewrite prefs_iadd_lookup, Hp.
  - intros i Hi. rewrite prefs_iadd_lookup_item_ne by done. by apply Hpi.
  - intros u Hu. rewrite prefs_iadd_lookup_user_ne by done. by apply Hpu.
  - by rewrite dd_iadd_lookup, Hpop.
  - intros i Hi. rewrite dd_iadd_lookup_ne by done. by apply Hpopo.
Qed.

(** Six selections on a fresh store leave the Q-value 0.6, the product
    6 * alpha is the next binary64 number above it. *)
Lemma record_item_selected_six_inexact :
  let self' := Nat.iter 6 (record_item_selected 1 1 None) init in
  dict_get (q_values self') (1, 1) = 0.6%float ∧
  (dict_get (q_values init) (1%Z, 1%Z) + 6 * alpha)%float = 0.6000000000000001%float ∧
  (0.6 <? 0.6000000000000001)%float = true.
Proof. by vm_compute. Qed.

(** ** Explicit feedback *)

(** C4. Feedback normalisation: a score of 4.5 leaves exactly the state a
    score of 0.9 leaves; in general a score s > 1 is divided by 5 and the
    quotient f is added, times alpha, to the Q-value of (U, I) and, as it
    is, to its preference weight, nothing else being changed. *)
Theorem record_user_feedback_normalizes (U I : Z) self :
  record_user_feedback U I 4.5%float self = record_user_feedback U I 0.9%float self ∧
  ∀ s, (1 <? s)%float = true →
    let f := (s / 5.0)%float in
    let self' := record_user_feedback U I s self in
    q_values self' !! (U, I)
      = Some (default 0%float (q_values self !! (U, I)) + f * alpha)%float ∧
    (∀ k, k ≠ (U, I) → q_values self' !! k = q_values self !! k) ∧
    pref_lookup (user_preferences self') U I
      = Some (default 0%float (pref_lookup (user_preferences self) U I) + f)%float ∧
    (∀ i, i ≠ I → pref_lookup (user_preferences self') U i
                   = pref_lookup (user_preferences self) U i) ∧
    (∀ u, u ≠ U → user_preferences self' !! u = user_preferences self !! u) ∧
    item_popularity self' = item_popularity self.
Proof.
  split.
  - unfold record_user_feedback.
    replace (normalize_feedback 4.5) with (normalize_feedback 0.9) by reflexivity.
    reflexivity.
  - intros s Hs f self'. subst self'. unfold record_user_feedback, normalize_feedback.
    rewrite Hs. fold f. cbn [q_values user_preferences item_popularity].
    repeat split.
    + apply dd_iadd_lookup.
    + intros k Hk. by apply dd_iadd_lookup_ne.
    + apply prefs_iadd_lookup.
    + intros i Hi. by apply prefs_iadd_lookup_item_ne.
    + intros u Hu. by apply prefs_iadd_lookup_user_ne.
Qed.

Lemma record_user_feedback_normalizes_witness :
  record_user_feedback 3 7 4.5%float init = record_user_feedback 3 7 0.9%float init ∧
  q_values (record_user_feedback 3 7 4.5%float init) !! (3, 7) = Some 0.09000000000000001%float ∧
  pref_lookup (user_preferences (record_user_feedback 3 7 4.5%float init)) 3 7 = Some 0.9%float.
Proof.
  destruct (record_user_feedback_normalizes 3 7 init) as [Heq Hgen].
  split; [exact Heq|].
  destruct (Hgen 4.5%float eq_refl) as (Hq & _ & Hp & _).
  cbv zeta in Hq, Hp. rewrite Hq, Hp. by vm_compute.
Defined.

(** ** Recommendation *)

Lemma score_loop_length user prefs items self :
  length (fst (score_loop user prefs items self)) = length items.
Proof.
  revert self. induction items as [|it rest IH]; intros self; simpl; [done|].
  specialize (IH self). destruct (score_loop user prefs rest self). simpl in *. lia.
Qed.

Lemma score_loop_state user prefs items self :
  snd (score_loop user prefs items self) = self.
Proof.
  revert self. induction items as [|it rest IH]; intros self; simpl; [done|].
  specialize (IH self). by destruct (score_loop user prefs rest self).
Qed.

Lemma insert_desc_length x l : length (insert_desc x l) = S (length l).
Proof.
  induction l as [|y l IH]; simpl; [done|].
  destruct (rl_score x <? rl_score y)%float; simpl; lia.
Qed.

Lemma sorted_desc_length l : length (sorted_desc l) = length l.
Proof.
  induction l as [|x l IH]; simpl; [done|].
  by rewrite insert_desc_length, IH.
Qed.

Lemma insert_desc_perm x l : insert_desc x l ≡ₚ x :: l.
Proof.
  induction l as [|y l IH]; simpl; [done|].
  destruct (rl_score x <? rl_score y)%float; [|done].
  rewrite IH. apply Permutation_swap.
Qed.

Lemma sorted_desc_perm l : sorted_desc l ≡ₚ l.
Proof.
  induction l as [|x l IH]; simpl; [done|].
  by rewrite insert_desc_perm, IH.
Qed.

Lemma random_sample_length {A} draw k (pool : list A) :
  (k ≤ length pool)%nat → length (random_sample draw k pool) = k.
Proof.
  revert pool. induction k as [|k IH]; intros pool Hk; simpl; [done|].
  assert (Hj : (draw k mod length pool < length pool)%nat)
    by (apply Nat.mod_upper_bound; lia).
  destruct (lookup_lt_is_Some_2 pool _ Hj) as [x Hx]. rewrite Hx. simpl.
  rewrite IH; [done|]. rewrite length_delete by eauto. lia.
Qed.

Lemma recommendations_scored user avail g self :
  get_personalized_recommendations user avail g self =
    let scored := fst (score_loop user (default ∅ (user_preferences self !! user)) avail self) in
    (take 5 (if explores g (length scored)
             then take 3 (sorted_desc scored)
                  ++ random_sample (rnd_draw g) (Nat.min 2 (length scored)) scored
             else sorted_desc scored),
     self).
Proof.
  unfold get_personalized_recommendations.
  pose proof (score_loop_state user (default ∅ (user_preferences self !! user)) avail self) as Hs.
  destruct (score_loop _ _ avail self) as [scored self1]. simpl in *. by subst.
Qed.

(** C8 (as amended). Length of the recommendation list for k candidates: at
    most 5 in every case; [min k 5] when the exploration branch is not
    taken; exactly 5 when it is (three best and two sampled items, so five
    results for four candidates); hence exactly k for k <= 3 and for k = 5,
    and the empty list for no candidate. The method has no raising path. *)
Theorem recommendations_length user (avail : list menu_item) g self :
  let k := length avail in
  let n := length (fst (get_personalized_recommendations user avail g self)) in
  (n ≤ 5)%nat ∧
  (explores g k = false → n = Nat.min k 5) ∧
  (explores g k = true → n = 5%nat) ∧
  ((k ≤ 3)%nat → n = k) ∧
  (k = 5%nat → n = 5%nat).
Proof.
  intros k n. subst n. rewrite recommendations_scored. cbn zeta. cbn [fst].
  rewrite score_loop_length. fold k.
  assert (Hex : explores g k = true → (3 < k)%nat).
  { unfold explores. intros [_ Hk]%andb_true_iff. by apply Nat.ltb_lt in Hk. }
  assert (Hlen : ∀ scored : list scored_item, length scored = k → (3 < k)%nat →
            length (take 5 (take 3 (sorted_desc scored)
                            ++ random_sample (rnd_draw g) (Nat.min 2 k) scored)) = 5%nat).
  { intros scored Hs Hk. rewrite length_take, length_app, length_take, sorted_desc_length.
    rewrite random_sample_length by lia. lia. }
  pose proof (score_loop_length user (default ∅ (user_preferences self !! user)) avail self) as Hsl.
  fold k in Hsl.
  destruct (explores g k) eqn:E.
  - specialize (Hex eq_refl). rewrite (Hlen _ Hsl Hex).
    repeat split; try done; lia.
  - rewrite length_take, sorted_desc_length, Hsl.
    repeat split; try done; lia.
Qed.

(** Four candidates, a draw below epsilon: five results, the first two
    candidates twice. *)
Lemma four_candidates_five_results :
  length four_candidates = 4%nat ∧
  (mi_item_id ∘ si_item) <$> fst (get_personalized_recommendations 1 four_candidates exploring_rng init)
    = [1; 2; 3; 1; 2].
Proof. by vm_compute. Qed.

Lemma recommendations_length_witness :
  length (fst (get_personalized_recommendations 1 four_candidates
                 {| rnd_random := 0.5%float; rnd_draw := λ _, 0%nat |} init)) = 4%nat ∧
  length (fst (get_personalized_recommendations 1 (take 2 four_candidates)
                 exploring_rng init)) = 2%nat.
Proof.
  split.
  - destruct (recommendations_length 1 four_candidates
                {| rnd_random := 0.5%float; rnd_draw := λ _, 0%nat |} init)
      as (_ & Hgreedy & _).
    exact (Hgreedy eq_refl).
  - destruct (recommendations_length 1 (take 2 four_candidates) exploring_rng init)
      as (_ & _ & _ & Hsmall & _).
    apply Hsmall. simpl. lia.
Defined.

(** C10. Recommendation reads the learned state and does not write it: the
    three mappings are afterwards what they were, no entry having been
    created for an unseen (user, item) pair. *)
Theorem recommendations_read_only user (avail : list menu_item) g self :
  snd (get_personalized_recommendations user avail g self) = self.
Proof. by rewrite recommendations_scored. Qed.

(** ** Integers and keys survive printing and parsing *)

Lemma literal_digits_of_uint d b :
  d ≠ Nil ∨ b = true →
  literal_digits b (NilEmpty.string_of_uint d) = Some d.
Proof.
  revert b. induction d; intros b Hb; simpl;
    try (rewrite IHd by (by right); reflexivity).
  destruct Hb as [?| ->]; done.
Qed.

Lemma rstrip_of_uint d :
  rstrip (NilEmpty.string_of_uint d) = NilEmpty.string_of_uint d.
Proof.
  induction d; simpl; try done;
    rewrite IHd; by destruct (NilEmpty.string_of_uint d).
Qed.

Lemma has_underscore_of_uint d :
  has_char "_" (NilEmpty.string_of_uint d) = false.
Proof. induction d; simpl; done. Qed.

Lemma py_str_nonneg_cases z :
  (∃ d, d ≠ Nil ∧ py_str z = NilEmpty.string_of_uint d ∧ Z.of_uint d = z) ∨
  (∃ d, d ≠ Nil ∧ py_str z = String "-" (NilEmpty.string_of_uint d) ∧ - Z.of_uint d = z).
Proof.
  pose proof (DecimalZ.of_to z) as Hz. unfold py_str.
  destruct z as [|p|p]; simpl in *.
  - left. exists (D0 Nil). by repeat split.
  - left. exists (Pos.to_uint p). pose proof (Unsigned.to_uint_nonnil p) as Hn.
    repeat split; [done | | done]. by destruct (Pos.to_uint p).
  - right. exists (Pos.to_uint p). pose proof (Unsigned.to_uint_nonnil p) as Hn.
    repeat split; [done | | done]. by destruct (Pos.to_uint p).
Qed.

Lemma strip_py_str z : strip (py_str z) = py_str z.
Proof.
  unfold strip.
  destruct (py_str_nonneg_cases z) as [(d & Hd & -> & _)|(d & Hd & -> & _)].
  - destruct d; try done; simpl; rewrite rstrip_of_uint;
      by destruct (NilEmpty.string_of_uint d).
  - simpl. rewrite rstrip_of_uint. by destruct (NilEmpty.string_of_uint d).
Qed.

Lemma is_ascii_of_uint d : is_ascii (NilEmpty.string_of_uint d) = true.
Proof. induction d; simpl; done. Qed.

Lemma is_ascii_py_str z : is_ascii (py_str z) = true.
Proof.
  destruct (py_str_nonneg_cases z) as [(d & _ & -> & _)|(d & _ & -> & _)]; simpl;
    apply is_ascii_of_uint.
Qed.

Lemma py_int_str int_of_text z : py_int int_of_text (py_str z) = Returned z.
Proof.
  unfold py_int. rewrite is_ascii_py_str, strip_py_str.
  destruct (py_str_nonneg_cases z) as [(d & Hd & -> & Hz)|(d & Hd & -> & Hz)].
  - assert (Hl : literal_digits false (NilEmpty.string_of_uint d) = Some d)
      by (apply literal_digits_of_uint; by left).
    destruct d; try done; simpl in *; rewrite Hl; simpl; by rewrite Hz.
  - rewrite literal_digits_of_uint by (by left). simpl. by rewrite Hz.
Qed.

Lemma has_underscore_py_str z : has_char "_" (py_str z) = false.
Proof.
  destruct (py_str_nonneg_cases z) as [(d & _ & -> & _)|(d & _ & -> & _)]; simpl;
    apply has_underscore_of_uint.
Qed.

Lemma split_on_absent sep s : has_char sep s = false → split_on sep s = [s].
Proof.
  induction s as [|c s IH]; simpl; [done|].
  intros [Hc Hs]%orb_false_iff. rewrite Hc, (IH Hs). done.
Qed.

Lemma split_on_app sep a b :
  has_char sep a = false →
  split_on sep (a +:+ String sep b) = a :: split_on sep b.
Proof.
  induction a as [|c a IH]; simpl.
  - intros _. by rewrite Ascii.eqb_refl.
  - intros [Hc Ha]%orb_false_iff. rewrite Hc, (IH Ha). done.
Qed.

Lemma parse_q_key_q_key int_of_text u i :
  parse_q_key int_of_text (q_key u i) = Returned (u, i).
Proof.
  unfold parse_q_key, q_key.
  change ("_" +:+ py_str i) with (String "_" (py_str i)).
  rewrite split_on_app by apply has_underscore_py_str.
  rewrite split_on_absent by apply has_underscore_py_str.
  rewrite !py_int_str. reflexivity.
Qed.

Lemma py_str_inj z z' : py_str z = py_str z' → z = z'.
Proof.
  intros Heq. pose proof (py_int_str (λ _, None) z) as Hz.
  rewrite Heq, py_int_str in Hz. congruence.
Qed.

Lemma q_key_inj u i u' i' : q_key u i = q_key u' i' → (u, i) = (u', i').
Proof.
  intros Heq. pose proof (parse_q_key_q_key (λ _, None) u i) as Hk.
  rewrite Heq, parse_q_key_q_key in Hk. congruence.
Qed.

(** ** Loading *)

Lemma assign_all_empty `{Countable K} {V} (entries : list (K * V)) :
  assign_all entries ∅ = list_to_map (reverse entries).
Proof.
  unfold assign_all. rewrite <- (reverse_involutive entries) at 1.
  generalize (reverse entries) as l. clear entries.
  induction l as [|[k x] l IH]; [done|].
  rewrite reverse_cons, fold_left_app. simpl. by rewrite IH.
Qed.

Lemma assign_all_to_list `{Countable K} {V} (d : gmap K V) :
  assign_all (map_to_list d) ∅ = d.
Proof.
  rewrite assign_all_empty.
  rewrite (list_to_map_proper (reverse (map_to_list d)) (map_to_list d)).
  - apply list_to_map_to_list.
  - rewrite fmap_reverse, reverse_Permutation. apply NoDup_fst_map_to_list.
  - apply reverse_Permutation.
Qed.

Section LoadFacts.

Variable rt : runtime.

Lemma for_each_app {A S} (body : S → A → outcome unit * S) xs ys : ∀ s,
  for_each body (xs ++ ys) s
  = match for_each body xs s with
    | (Returned _, s') => for_each body ys s'
    | (Raised e, s') => (Raised e, s')
    end.
Proof.
  induction xs as [|x xs IH]; intros s; simpl; [done|].
  destruct (body s x) as [[[]|e] s']; [apply IH | done].
Qed.

Lemma load_q_entry_step q out entry :
  load_q_entry rt (q, out) entry =
    match q_entry rt entry with
    | Returned (k, x) => (Returned tt, (<[k := x]> q, out))
    | Raised e =>
        if console rt entry.1 then (Returned tt, (q, out ++ [LogQKeyError entry.1 e]))
        else (Raised UnicodeEncodeError, (q, out))
    end.
Proof.
  destruct entry as [key value]. unfold load_q_entry, q_entry, print_warning. cbn [fst snd].
  destruct (_ ≫= _) as [[k x]|e]; [done|]. by destruct (console rt key).
Qed.

Lemma load_pop_entry_step pop out entry :
  load_pop_entry rt (pop, out) entry =
    match pop_entry rt entry with
    | Returned (i, x) => (Returned tt, (<[i := x]> pop, out))
    | Raised e =>
        if console rt entry.1 then (Returned tt, (pop, out ++ [LogItemError entry.1 e]))
        else (Raised UnicodeEncodeError, (pop, out))
    end.
Proof.
  destruct entry as [key value]. unfold load_pop_entry, pop_entry, print_warning.
  cbn [fst snd].
  destruct (_ ≫= _) as [[k x]|e]; [done|]. by destruct (console rt key).
Qed.

Lemma load_q_entries entries : ∀ q out,
  Forall (printable rt) (warnings (q_entry rt) (λ e, LogQKeyError e.1) entries) →
  for_each (load_q_entry rt) entries (q, out)
  = (Returned tt,
     (assign_all (converted (q_entry rt) entries) q,
      out ++ warnings (q_entry rt) (λ e, LogQKeyError e.1) entries)).
Proof.
  induction entries as [|entry rest IH]; intros q out Hpr; cbn [for_each].
  - simpl. by rewrite app_nil_r.
  - rewrite load_q_entry_step. unfold converted, warnings in *. simpl in *.
    destruct (q_entry rt entry) as [[k x]|e]; simpl in *.
    + by rewrite IH.
    + apply Forall_cons in Hpr as [Hk%Is_true_true_1 Hrest]. cbn [printable] in Hk.
      rewrite Hk, IH by done. by rewrite <- app_assoc.
Qed.

Lemma load_pop_entries entries : ∀ pop out,
  Forall (printable rt) (warnings (pop_entry rt) (λ e, LogItemError e.1) entries) →
  for_each (load_pop_entry rt) entries (pop, out)
  = (Returned tt,
     (assign_all (converted (pop_entry rt) entries) pop,
      out ++ warnings (pop_entry rt) (λ e, LogItemError e.1) entries)).
Proof.
  induction entries as [|entry rest IH]; intros pop out Hpr; cbn [for_each].
  - simpl. by rewrite app_nil_r.
  - rewrite load_pop_entry_step. unfold converted, warnings in *. simpl in *.
    destruct (pop_entry rt entry) as [[i x]|e]; simpl in *.
    + by rewrite IH.
    + apply Forall_cons in Hpr as [Hk%Is_true_true_1 Hrest]. cbn [printable] in Hk.
      rewrite Hk, IH by done. by rewrite <- app_assoc.
Qed.

Lemma prefs_set_lookup p u i x u' i' :
  pref_lookup (prefs_set p u i x) u' i'
  = if decide ((u, i) = (u', i')) then Some x else pref_lookup p u' i'.
Proof.
  unfold prefs_set, prefs_getitem, pref_lookup.
  destruct (decide (u = u')) as [->|Hu].
  - destruct (p !! u') as [inner|] eqn:E; simpl; rewrite lookup_insert_eq; simpl;
      rewrite lookup_insert; repeat case_decide; simplify_eq; done.
  - case_decide; [simplify_eq|].
    destruct (p !! u) as [inner|] eqn:E; simpl; rewrite !lookup_insert_ne by done; done.
Qed.

Lemma prefs_set_flat p m u i x :
  flat_prefs p m → flat_prefs (prefs_set p u i x) (<[(u, i) := x]> m).
Proof.
  intros Hf u' i'. rewrite prefs_set_lookup, lookup_insert.
  case_decide; [done | apply Hf].
Qed.

Lemma prefs_set_no_empty p u i x :
  no_empty_user p → no_empty_user (prefs_set p u i x).
Proof.
  intros Hne u' inner'. unfold prefs_set, prefs_getitem.
  destruct (p !! u) as [inner|] eqn:E; simpl.
  - rewrite lookup_insert. case_decide.
    + intros [= <-]. apply insert_non_empty.
    + apply Hne.
  - rewrite lookup_insert. case_decide.
    + intros [= <-]. apply insert_non_empty.
    + rewrite lookup_insert_ne by done. apply Hne.
Qed.

Lemma set_all_flat entries : ∀ p m,
  flat_prefs p m → flat_prefs (set_all entries p) (assign_all entries m).
Proof.
  induction entries as [|[[u i] x] rest IH]; intros p m Hf; [done|].
  apply IH. by apply prefs_set_flat.
Qed.

Lemma set_all_no_empty entries : ∀ p,
  no_empty_user p → no_empty_user (set_all entries p).
Proof.
  induction entries as [|[[u i] x] rest IH]; intros p Hne; [done|].
  apply IH. by apply prefs_set_no_empty.
Qed.

Lemma set_all_app es1 es2 p : set_all (es1 ++ es2) p = set_all es2 (set_all es1 p).
Proof. unfold set_all. by rewrite fold_left_app. Qed.

Lemma load_pref_items_spec u entries : ∀ p,
  load_pref_items rt u entries p
  = (match (first_failure rt) entries with Some e => Raised e | None => Returned tt end,
     set_all ((λ '(i, x), ((u, i), x)) <$> (converted_prefix rt) entries) p).
Proof.
  induction entries as [|[item_id_str value] rest IH]; intros p; [done|].
  cbn [load_pref_items converted_prefix first_failure].
  change (item_id ← py_int (int_of_text rt) item_id_str; x ← py_float rt value;
          mret (item_id, x))
    with ((pop_entry rt) (item_id_str, value)).
  destruct ((pop_entry rt) (item_id_str, value)) as [[i x]|e]; [|done].
  by rewrite IH.
Qed.

Lemma load_pref_user_step p out entry :
  load_pref_user rt (p, out) entry
  = match user_warning rt entry with
    | None => (Returned tt, (set_all (user_entries rt entry) p, out))
    | Some line =>
        if console rt entry.1
        then (Returned tt, (set_all (user_entries rt entry) p, out ++ [line]))
        else (Raised UnicodeEncodeError, (set_all (user_entries rt entry) p, out))
    end.
Proof.
  destruct entry as [user_id_str prefs].
  unfold load_pref_user, user_entries, user_warning, print_warning.
  cbn [fst snd]. destruct (py_int (int_of_text rt) user_id_str) as [u|e]; simpl.
  - destruct (json_items prefs) as [entries|e]; simpl.
    + rewrite load_pref_items_spec.
      destruct (first_failure rt entries); simpl; [|done].
      by destruct (console rt user_id_str).
    + by destruct (console rt user_id_str).
  - by destruct (console rt user_id_str).
Qed.

Lemma user_warning_printable entry line :
  user_warning rt entry = Some line → printable rt line = console rt entry.1.
Proof.
  unfold user_warning.
  destruct (py_int (int_of_text rt) entry.1), (json_items entry.2);
    try (by intros [= <-]).
  destruct (first_failure rt _); by intros [= <-].
Qed.

Lemma load_pref_users entries : ∀ p out,
  Forall (printable rt) (omap (user_warning rt) entries) →
  for_each (load_pref_user rt) entries (p, out)
  = (Returned tt,
     (set_all (entries ≫= user_entries rt) p, out ++ omap (user_warning rt) entries)).
Proof.
  induction entries as [|entry rest IH]; intros p out Hpr; cbn [for_each].
  - simpl. by rewrite app_nil_r.
  - rewrite load_pref_user_step, bind_cons, set_all_app. simpl in *.
    destruct (user_warning rt entry) as [line|] eqn:Hw.
    + apply Forall_cons in Hpr as [Hk%Is_true_true_1 Hrest].
      rewrite (user_warning_printable _ _ Hw) in Hk. rewrite Hk, IH by done.
      by rewrite <- app_assoc.
    + by rewrite IH.
Qed.

End LoadFacts.

Lemma load_document_structured rt filepath state qs us ps self :
  well_structured state qs us ps →
  Forall (printable rt) (loaded_output rt filepath qs us ps) →
  load_document rt filepath state self
  = (Returned tt, loaded_state rt qs us ps, loaded_output rt filepath qs us ps).
Proof.
  intros (Hq & Hu & Hp) Hpr. unfold loaded_output in Hpr.
  apply Forall_app in Hpr as [_ Hpr]. apply Forall_app in Hpr as [Hprq Hpr].
  apply Forall_app in Hpr as [Hpru Hpr]. apply Forall_app in Hpr as [Hprp _].
  unfold load_document.
  rewrite Hq, load_q_entries by done. cbn [item_popularity user_preferences q_values].
  rewrite Hu, load_pref_users by done. rewrite Hp, load_pop_entries by done.
  unfold loaded_state, loaded_output. cbn [q_values user_preferences item_popularity].
  by rewrite <- !app_assoc.
Qed.

Lemma load_state_structured rt filepath state qs us ps self fs :
  fs_files fs !! filepath = Some (JsonText state) →
  well_structured state qs us ps →
  Forall (printable rt) (loaded_output rt filepath qs us ps) →
  load_state rt filepath self fs
  = (Returned tt, loaded_state rt qs us ps, loaded_output rt filepath qs us ps).
Proof.
  intros Hfile Hws Hpr. unfold load_state, load_body. rewrite Hfile.
  by rewrite (load_document_structured _ _ _ _ _ _ _ Hws Hpr).
Qed.

(** ** Cold start *)

(** C7 (as amended). A load from a path that names no file raises nothing,
    prints that the state file was not found, and leaves the three mappings
    as they were: empty on a freshly constructed loop, unchanged (not
    emptied) otherwise. *)
Theorem load_state_missing_file rt filepath self fs :
  fs_files fs !! filepath = None →
  ∃ self',
    load_state rt filepath self fs = (Returned tt, self', [LogNotFound filepath]) ∧
    q_values self' = q_values self ∧
    user_preferences self' = user_preferences self ∧
    item_popularity self' = item_popularity self.
Proof.
  intros Hnone. exists self. unfold load_state, load_body. by rewrite Hnone.
Qed.

Lemma load_state_missing_file_witness :
  ∃ self',
    load_state example_runtime "rl_state.json" init no_files
      = (Returned tt, self', [LogNotFound "rl_state.json"]) ∧
    q_values self' = ∅ ∧ user_preferences self' = ∅ ∧ item_popularity self' = ∅.
Proof.
  apply (load_state_missing_file example_runtime "rl_state.json" init no_files).
  reflexivity.
Defined.

(** After one selection, a load from a missing file keeps the learned
    entry: the mappings are not empty afterwards. *)
Lemma load_state_missing_file_keeps_state :
  let self := record_item_selected 1 1 None init in
  fs_files no_files !! "rl_state.json" = None ∧
  q_values (load_state example_runtime "rl_state.json" self no_files).1.2 !! (1, 1)
    = Some 0.1%float.
Proof. by vm_compute. Qed.

(** ** Saving *)

(** C9. [save_state] returns normally for every state, path and file
    system, the failure of the write included (it is printed), and the
    loop it leaves is the loop it was called on; a failed write leaves the
    files as they were. *)
Theorem save_state_safe filepath now self fs :
  (∃ fs' out, save_state filepath now self fs = (Returned tt, self, fs', out)) ∧
  (fs_writable fs filepath = false →
   save_state filepath now self fs = (Returned tt, self, fs, [LogSaveFailed OSError])) ∧
  (fs_writable fs filepath = true →
   ∃ fs' out, save_state filepath now self fs = (Returned tt, self, fs', out) ∧
     fs_files fs' !! filepath = Some (JsonText (serialize now self))).
Proof.
  unfold save_state, save_body. destruct (fs_writable fs filepath); simpl.
  - repeat split; [eauto | done |]. intros _. do 2 eexists. split; [done|].
    simpl. apply lookup_insert_eq.
  - repeat split; [eauto | done].
Qed.

Lemma save_state_safe_witness :
  save_state "rl_state.json" "2024-01-01T12:00:00" (record_item_selected 1 1 None init)
             read_only_files
  = (Returned tt, record_item_selected 1 1 None init, read_only_files,
     [LogSaveFailed OSError]).
Proof.
  apply (save_state_safe "rl_state.json" "2024-01-01T12:00:00"
           (record_item_selected 1 1 None init) read_only_files).
  reflexivity.
Defined.

(** ** Loading a partly malformed document *)

Lemma assign_all_NoDup `{Countable K} {V} (entries : list (K * V)) k x :
  NoDup entries.*1 → assign_all entries ∅ !! k = Some x ↔ (k, x) ∈ entries.
Proof.
  intros Hnd. rewrite assign_all_empty.
  rewrite <- elem_of_list_to_map.
  - by rewrite elem_of_reverse.
  - by rewrite fmap_reverse, reverse_Permutation.
Qed.

(** X22. Loading a document of the expected structure, the warnings of
    which the console can print, raises nothing. Every entry of
    [q_values] and of [item_popularity] whose key and value convert is
    assigned, in the order of the file, and every other entry is skipped
    with one warning. For [user_preferences] the unit that is skipped is
    the user: a user whose identifier does not convert, or whose value is
    not an object, is skipped with a warning; of the entries of any other
    user, those before the first one that does not convert are assigned,
    and that one and all that follow it are dropped with one warning for
    the user. *)
Theorem load_state_tolerant rt filepath state qs us ps self fs :
  fs_files fs !! filepath = Some (JsonText state) →
  well_structured state qs us ps →
  Forall (printable rt) (loaded_output rt filepath qs us ps) →
  ∃ self' out,
    load_state rt filepath self fs = (Returned tt, self', out) ∧
    q_values self' = assign_all (converted (q_entry rt) qs) ∅ ∧
    item_popularity self' = assign_all (converted (pop_entry rt) ps) ∅ ∧
    user_preferences self' = set_all (us ≫= user_entries rt) ∅ ∧
    flat_prefs (user_preferences self')
               (assign_all (us ≫= user_entries rt) ∅) ∧
    out = [LogLoading filepath]
          ++ warnings (q_entry rt) (λ e, LogQKeyError e.1) qs
          ++ omap (user_warning rt) us
          ++ warnings (pop_entry rt) (λ e, LogItemError e.1) ps
          ++ [LogLoaded (size (q_values self')) (size (user_preferences self'))
                        (size (item_popularity self'))].
Proof.
  intros Hfile Hws Hpr. do 2 eexists.
  split; [by apply (load_state_structured _ _ state)|].
  repeat split. apply set_all_flat. by intros u i.
Qed.

Lemma load_state_tolerant_witness :
  ∃ self' out,
    load_state example_runtime "rl_state.json" init corrupt_q_files
      = (Returned tt, self', out) ∧
    q_values self' !! (3, 7) = Some 0.5%float ∧
    q_values self' !! (4, 1) = Some 2%float ∧
    pref_lookup (user_preferences self') 3 7 = Some 0.2%float ∧
    item_popularity self' !! 7 = Some 1.5%float ∧
    out = [LogLoading "rl_state.json"; LogQKeyError "abc_xyz" ValueError; LogLoaded 2 1 1].
Proof.
  destruct (load_state_tolerant example_runtime "rl_state.json" corrupt_q_document
              [ ("3_7", JFloat 0.5%float); ("abc_xyz", JFloat 0.9%float); ("4_1", JInt 2) ]
              [ ("3", JObj [ ("7", JFloat 0.2%float) ]) ]
              [ ("7", JFloat 1.5%float) ]
              init corrupt_q_files)
    as (self' & out & Hload & Hq & Hpop & Hp & Hpref & Hout).
  - reflexivity.
  - by repeat split.
  - vm_compute. by repeat constructor.
  - exists self', out. split; [exact Hload|].
    rewrite (Hpref 3 7), Hout, Hq, Hpop, Hp. by vm_compute.
Defined.

(** C6. The claim fails on the code for [user_preferences]: the [try]
    there wraps the whole inner loop of a user, where the loops over
    [q_values] and [item_popularity] wrap one entry. On the document
    [{"3": {"1": 0.5, "abc": 0.2, "2": 0.7}}] for that section, loaded
    into a fresh loop on a console that prints every warning, the load
    returns with one warning for user 3; the entry before the malformed
    key is restored and the well-formed entry ["2": 0.7] after it, which
    converts, is not. *)
Lemma load_state_drops_later_preferences :
  let result := load_state example_runtime "rl_state.json" init corrupt_prefs_files in
  let self' := result.1.2 in
  result.1.1 = Returned tt ∧
  result.2 = [LogLoading "rl_state.json"; LogUserError "3" ValueError; LogLoaded 0 1 0] ∧
  pop_entry example_runtime ("2", JFloat 0.7%float) = Returned (2, 0.7%float) ∧
  pref_lookup (user_preferences self') 3 1 = Some 0.5%float ∧
  pref_lookup (user_preferences self') 3 2 = None.
Proof. by vm_compute. Qed.

(** ** Saving, then loading *)

Section RoundTripFacts.

Variable rt : runtime.

Lemma q_entry_encoded u i x :
  q_entry rt (q_key u i, JFloat x) = Returned ((u, i), x).
Proof. unfold q_entry. simpl. by rewrite parse_q_key_q_key. Qed.

Lemma pop_entry_encoded i x :
  pop_entry rt (py_str i, JFloat x) = Returned (i, x).
Proof. unfold pop_entry. simpl. by rewrite py_int_str. Qed.

Lemma converted_encoded {A B} (conv : A → outcome B) (enc : B → A) (l : list B) :
  (∀ b, conv (enc b) = Returned b) → converted conv (enc <$> l) = l.
Proof.
  intros Hconv. unfold converted. induction l as [|b l IH]; [done|].
  rewrite fmap_cons. simpl. rewrite Hconv. f_equal. exact IH.
Qed.

Lemma warnings_encoded {A B} (conv : A → outcome B) warn (enc : B → A) (l : list B) :
  (∀ b, conv (enc b) = Returned b) → warnings conv warn (enc <$> l) = [].
Proof.
  intros Hconv. unfold warnings. induction l as [|b l IH]; [done|].
  rewrite fmap_cons. simpl. rewrite Hconv. exact IH.
Qed.

Lemma serialize_floats_items d :
  serialize_floats d = JObj (encode_float <$> map_to_list d).
Proof.
  unfold serialize_floats. f_equal. apply list_fmap_ext. by intros _ [k v] _.
Qed.

Lemma converted_prefix_encoded (l : list (Z * float)) :
  converted_prefix rt (encode_float <$> l) = l.
Proof.
  induction l as [|[i x] l IH]; [done|].
  rewrite fmap_cons. cbn [converted_prefix].
  unfold encode_float at 1. cbn [fst snd]. by rewrite pop_entry_encoded, IH.
Qed.

Lemma first_failure_encoded (l : list (Z * float)) :
  first_failure rt (encode_float <$> l) = None.
Proof.
  induction l as [|[i x] l IH]; [done|].
  rewrite fmap_cons. cbn [first_failure].
  unfold encode_float at 1. cbn [fst snd]. by rewrite pop_entry_encoded.
Qed.

Lemma user_entries_encoded u inner :
  user_entries rt (encode_user (u, inner))
  = (λ '(i, x), ((u, i), x)) <$> map_to_list inner.
Proof.
  unfold user_entries, encode_user. cbn [fst snd].
  rewrite py_int_str, serialize_floats_items. simpl.
  by rewrite converted_prefix_encoded.
Qed.

Lemma user_warning_encoded u inner :
  user_warning rt (encode_user (u, inner)) = None.
Proof.
  unfold user_warning, encode_user. cbn [fst snd].
  rewrite py_int_str, serialize_floats_items. simpl.
  by rewrite first_failure_encoded.
Qed.

Lemma users_encoded (l : list (Z * gmap Z float)) :
  (encode_user <$> l) ≫= user_entries rt
  = l ≫= (λ '(u, inner), (λ '(i, x), ((u, i), x)) <$> map_to_list inner).
Proof.
  induction l as [|[u inner] l IH]; [done|].
  rewrite fmap_cons, !bind_cons, IH. by rewrite user_entries_encoded.
Qed.

Lemma user_warnings_encoded (l : list (Z * gmap Z float)) :
  omap (user_warning rt) (encode_user <$> l) = [].
Proof.
  induction l as [|[u inner] l IH]; [done|].
  rewrite fmap_cons. simpl. rewrite user_warning_encoded. exact IH.
Qed.

End RoundTripFacts.

Lemma elem_of_flatten_prefs p u i x :
  ((u, i), x) ∈ flatten_prefs p ↔ pref_lookup p u i = Some x.
Proof.
  unfold flatten_prefs, pref_lookup. rewrite list_elem_of_bind. split.
  - intros ([u' inner] & Hin & Hu). apply elem_of_map_to_list in Hu.
    apply list_elem_of_fmap in Hin as ([i' x'] & [= -> -> ->] & Hi).
    apply elem_of_map_to_list in Hi. by rewrite Hu.
  - destruct (p !! u) as [inner|] eqn:E; simpl; [|done]. intros Hi.
    exists (u, inner). split; [|by apply elem_of_map_to_list].
    apply list_elem_of_fmap. exists (i, x). split; [done|].
    by apply elem_of_map_to_list.
Qed.

Lemma NoDup_flatten_prefs p : NoDup (flatten_prefs p).*1.
Proof.
  unfold flatten_prefs.
  assert (Hkeys : ∀ l : list (Z * gmap Z float),
            (l ≫= (λ '(u, inner), (λ '(i, x), ((u, i), x)) <$> map_to_list inner)).*1
            = l ≫= (λ '(u, inner), (λ i, (u, i)) <$> (map_to_list inner).*1)).
  { induction l as [|[u inner] l IH]; [done|].
    rewrite !bind_cons, fmap_app, IH. f_equal.
    rewrite <- !list_fmap_compose. apply list_fmap_ext. by intros _ [i x] _. }
  rewrite Hkeys. apply NoDup_bind.
  - intros [u1 inner1] [u2 inner2] [u i] Hu1 Hu2 Hin1 Hin2.
    apply list_elem_of_fmap in Hin1 as (i1 & [= -> ->] & _).
    apply list_elem_of_fmap in Hin2 as (i2 & [= -> ->] & _).
    apply elem_of_map_to_list in Hu1, Hu2. congruence.
  - intros [u inner] _. apply NoDup_fmap_2_strong; [|apply NoDup_fst_map_to_list].
    by intros i1 i2 _ _ [= ->].
  - apply NoDup_map_to_list.
Qed.

Lemma flat_prefs_flatten p : flat_prefs p (assign_all (flatten_prefs p) ∅).
Proof.
  intros u i. apply option_eq. intros x.
  rewrite assign_all_NoDup by apply NoDup_flatten_prefs.
  by rewrite elem_of_flatten_prefs.
Qed.

Lemma flat_prefs_eq p p' m :
  flat_prefs p m → flat_prefs p' m → no_empty_user p → no_empty_user p' → p = p'.
Proof.
  intros Hf Hf' Hne Hne'.
  assert (Hsame : ∀ u i, pref_lookup p u i = pref_lookup p' u i)
    by (intros u i; by rewrite Hf, Hf').
  assert (Hsub : ∀ (a b : gmap Z (gmap Z float)) u inner,
            (∀ u i, pref_lookup a u i = pref_lookup b u i) → no_empty_user a →
            a !! u = Some inner → b !! u = Some inner).
  { intros a b u inner Hab Ha Hu.
    destruct (map_choose inner (Ha u inner Hu)) as (i & x & Hi).
    pose proof (Hab u i) as Hui. unfold pref_lookup in Hui. rewrite Hu in Hui.
    simpl in Hui. rewrite Hi in Hui.
    destruct (b !! u) as [inner'|] eqn:E; simpl in Hui; [|done].
    f_equal. apply map_eq. intros j.
    pose proof (Hab u j) as Huj. unfold pref_lookup in Huj.
    rewrite Hu, E in Huj. by simpl in Huj. }
  apply map_eq. intros u.
  destruct (p !! u) as [inner|] eqn:E.
  - symmetry. by apply (Hsub p p').
  - destruct (p' !! u) as [inner'|] eqn:E'; [|done].
    rewrite (Hsub p' p u inner') in E; [done | by intros; rewrite Hsame | done | done].
Qed.

Lemma serialize_structured now self :
  well_structured (serialize now self)
    (encode_q <$> map_to_list (q_values self))
    (encode_user <$> map_to_list (user_preferences self))
    (encode_float <$> map_to_list (item_popularity self)).
Proof.
  unfold well_structured, serialize. simpl. repeat split; f_equal.
  - apply list_fmap_ext. by intros _ [[u i] x] _.
  - apply list_fmap_ext. by intros _ [u inner] _.
  - apply list_fmap_ext. by intros _ [i x] _.
Qed.

Lemma loaded_state_serialized rt self :
  let self' := loaded_state rt
                 (encode_q <$> map_to_list (q_values self))
                 (encode_user <$> map_to_list (user_preferences self))
                 (encode_float <$> map_to_list (item_popularity self)) in
  q_values self' = q_values self ∧
  item_popularity self' = item_popularity self ∧
  flat_prefs (user_preferences self') (assign_all (flatten_prefs (user_preferences self)) ∅) ∧
  no_empty_user (user_preferences self').
Proof.
  unfold loaded_state. cbn [q_values user_preferences item_popularity].
  rewrite (converted_encoded (q_entry rt) encode_q)
    by (intros [[u i] x]; apply q_entry_encoded).
  rewrite (converted_encoded (pop_entry rt) encode_float)
    by (intros [i x]; apply pop_entry_encoded).
  rewrite users_encoded. fold (flatten_prefs (user_preferences self)).
  rewrite !assign_all_to_list. repeat split.
  - apply set_all_flat. by intros u i.
  - apply set_all_no_empty. intros u inner. by rewrite lookup_empty.
Qed.

Lemma loaded_output_serialized rt filepath self :
  let qs := encode_q <$> map_to_list (q_values self) in
  let us := encode_user <$> map_to_list (user_preferences self) in
  let ps := encode_float <$> map_to_list (item_popularity self) in
  let self' := loaded_state rt qs us ps in
  loaded_output rt filepath qs us ps
  = [LogLoading filepath;
     LogLoaded (size (q_values self')) (size (user_preferences self'))
               (size (item_popularity self'))].
Proof.
  intros qs us ps self'. unfold loaded_output. fold self'.
  unfold qs, us, ps.
  rewrite (warnings_encoded (q_entry rt) _ encode_q)
    by (intros [[u i] x]; apply q_entry_encoded).
  rewrite (warnings_encoded (pop_entry rt) _ encode_float)
    by (intros [i x]; apply pop_entry_encoded).
  by rewrite user_warnings_encoded.
Qed.

Lemma prefs_iadd_no_empty_but p u i x :
  (∀ u' inner, u' ≠ u → p !! u' = Some inner → inner ≠ ∅) →
  no_empty_user (prefs_iadd p u i x).
Proof.
  intros Hne u' inner'. unfold prefs_iadd, prefs_getitem, dd_iadd.
  destruct (p !! u) as [inner|] eqn:E; simpl.
  - rewrite lookup_insert. case_decide.
    + intros [= <-]. apply insert_non_empty.
    + by apply Hne.
  - rewrite lookup_insert. case_decide.
    + intros [= <-]. apply insert_non_empty.
    + rewrite lookup_insert_ne by done. by apply Hne.
Qed.

Lemma prefs_iadd_no_empty p u i x :
  no_empty_user p → no_empty_user (prefs_iadd p u i x).
Proof. intros Hne. apply prefs_iadd_no_empty_but. intros u' inner _. apply Hne. Qed.

Lemma order_loop_no_empty user reward items : ∀ self,
  quantities_convert items →
  no_empty_user (user_preferences self) →
  no_empty_user (user_preferences (order_loop user reward items self).2).
Proof.
  induction items as [|it rest IH]; intros self Hconv Hne; [done|].
  apply Forall_cons in Hconv as [Hit Hrest]. simpl.
  rewrite (order_line_returns _ _ _ _ Hit). apply IH; [done|]. simpl.
  apply prefs_iadd_no_empty_but. intros u' inner Hu'.
  rewrite prefs_getitem_user_ne by done. apply Hne.
Qed.

Lemma run_events_no_empty evs : ∀ self,
  Forall event_converts evs →
  no_empty_user (user_preferences self) →
  no_empty_user (user_preferences (run_events evs self)).
Proof.
  induction evs as [|ev evs IH]; intros self Hevs Hne; [done|].
  apply Forall_cons in Hevs as [Hev Hrest]. simpl. apply IH; [done|].
  destruct ev as [u i sid|u order now|u i s]; simpl.
  - by apply prefs_iadd_no_empty.
  - unfold record_order_completed.
    pose proof (order_loop_no_empty u (order_reward (length (items_of order)) (total_of order))
                  (items_of order) self Hev Hne) as Hloop.
    by destruct (order_loop _ _ _ _) as [[[]|e] self1].
  - by apply prefs_iadd_no_empty.
Qed.

Lemma load_state_serialized rt filepath now self other fs :
  fs_files fs !! filepath = Some (JsonText (serialize now self)) →
  load_state rt filepath other fs
  = (Returned tt,
     loaded_state rt (encode_q <$> map_to_list (q_values self))
                  (encode_user <$> map_to_list (user_preferences self))
                  (encode_float <$> map_to_list (item_popularity self)),
     loaded_output rt filepath (encode_q <$> map_to_list (q_values self))
                   (encode_user <$> map_to_list (user_preferences self))
                   (encode_float <$> map_to_list (item_popularity self))).
Proof.
  intros Hfile.
  apply (load_state_structured rt filepath _ _ _ _ other fs Hfile
           (serialize_structured now self)).
  rewrite loaded_output_serialized. by repeat constructor.
Qed.

(** C1. Round trip: when the write succeeds, loading the file that
    [save_state] wrote -- into the same loop or any other -- prints no
    warning and restores [q_values] and [item_popularity] entry for entry,
    and every (user, item, weight) entry of [user_preferences]; the whole
    two-level mapping is restored when no user of it has an empty mapping
    (an empty one is written and not recreated), which is the case of
    every state the update operations reach from the empty store. Floats
    are compared as binary64 numbers. *)
Theorem save_load_round_trip rt filepath now self other fs :
  fs_writable fs filepath = true →
  ∃ fs' out_save self' out_load,
    save_state filepath now self fs = (Returned tt, self, fs', out_save) ∧
    load_state rt filepath other fs' = (Returned tt, self', out_load) ∧
    q_values self' = q_values self ∧
    item_popularity self' = item_popularity self ∧
    (∀ u i, pref_lookup (user_preferences self') u i
            = pref_lookup (user_preferences self) u i) ∧
    (no_empty_user (user_preferences self) →
     user_preferences self' = user_preferences self) ∧
    (∀ evs, Forall event_converts evs → self = run_events evs init →
     user_preferences self' = user_preferences self) ∧
    out_load = [LogLoading filepath;
                LogLoaded (size (q_values self')) (size (user_preferences self'))
                          (size (item_popularity self'))].
Proof.
  intros Hw. unfold save_state, save_body. rewrite Hw.
  set (fs' := {| fs_files := <[filepath := JsonText (serialize now self)]> (fs_files fs);
                 fs_writable := fs_writable fs |}).
  assert (Hfile : fs_files fs' !! filepath = Some (JsonText (serialize now self)))
    by apply lookup_insert_eq.
  pose proof (load_state_serialized rt filepath now self other fs' Hfile) as Hload.
  destruct (loaded_state_serialized rt self) as (Hq & Hpop & Hflat & Hne).
  do 4 eexists. split; [done|]. split; [exact Hload|].
  assert (Hwhole : no_empty_user (user_preferences self) →
            user_preferences (loaded_state rt
                                (encode_q <$> map_to_list (q_values self))
                                (encode_user <$> map_to_list (user_preferences self))
                                (encode_float <$> map_to_list (item_popularity self)))
            = user_preferences self).
  { intros Hself. symmetry.
    eapply flat_prefs_eq; [apply flat_prefs_flatten | exact Hflat | done | done]. }
  split; [exact Hq|]. split; [exact Hpop|]. split; [|split; [|split]].
  - intros u i. rewrite Hflat. symmetry. apply flat_prefs_flatten.
  - exact Hwhole.
  - intros evs Hevs ->. apply Hwhole. apply run_events_no_empty; [done|].
    intros u inner. unfold init. simpl. by rewrite lookup_empty.
  - apply loaded_output_serialized.
Qed.

Lemma save_load_round_trip_witness :
  ∃ fs' out_save self' out_load,
    save_state "rl_state.json" "2024-01-01T12:00:00" example_loop no_files
      = (Returned tt, example_loop, fs', out_save) ∧
    load_state example_runtime "rl_state.json" init fs' = (Returned tt, self', out_load) ∧
    q_values self' = q_values example_loop ∧
    item_popularity self' = item_popularity example_loop ∧
    user_preferences self' = user_preferences example_loop.
Proof.
  destruct (save_load_round_trip example_runtime "rl_state.json" "2024-01-01T12:00:00"
              example_loop init no_files eq_refl)
    as (fs' & out_save & self' & out_load & Hsave & Hload & Hq & Hpop & _ & Hp & _ & _).
  exists fs', out_save, self', out_load. repeat split; try done.
  apply Hp. unfold example_loop, init. cbn [record_user_feedback record_item_selected user_preferences].
  do 3 apply prefs_iadd_no_empty. intros u inner. by rewrite lookup_empty.
Defined.

(** ** Stored scores are numbers that are not negative *)

Lemma nonneg_spec x : nonneg x = SF_nonneg (Prim2SF x).
Proof.
  unfold nonneg. rewrite leb_spec. change (Prim2SF 0) with (S754_zero false).
  by destruct (Prim2SF x) as [[]|[]| |[] m e].
Qed.

Lemma shr_1_nonneg mrs : 0 ≤ shr_m mrs → 0 ≤ shr_m (shr_1 mrs).
Proof. destruct mrs as [[|[p|p|]|[p|p|]] r s]; simpl; lia. Qed.

Lemma iter_shr_1_nonneg p : ∀ mrs, 0 ≤ shr_m mrs → 0 ≤ shr_m (SpecFloat.iter_pos shr_1 p mrs).
Proof.
  induction p as [p IH|p IH|]; intros mrs Hm; simpl.
  - apply IH, IH. by apply shr_1_nonneg.
  - by apply IH, IH.
  - by apply shr_1_nonneg.
Qed.

Lemma shr_nonneg mrs e n : 0 ≤ shr_m mrs → 0 ≤ shr_m (shr mrs e n).1.
Proof. destruct n; simpl; [done | apply iter_shr_1_nonneg | done]. Qed.

Lemma shr_fexp_nonneg pr em m e l : 0 ≤ m → 0 ≤ shr_m (shr_fexp pr em m e l).1.
Proof. intros Hm. apply shr_nonneg. by destruct l as [|[]]. Qed.

Lemma round_nearest_even_nonneg m l : 0 ≤ m → 0 ≤ round_nearest_even m l.
Proof. intros Hm. destruct l as [|[]]; simpl; try lia. destruct (Z.even m); lia. Qed.

Lemma binary_round_aux_nonneg pr em m e l :
  0 ≤ m → SF_nonneg (binary_round_aux pr em false m e l) = true.
Proof.
  intros Hm. unfold binary_round_aux.
  pose proof (shr_fexp_nonneg pr em m e l Hm) as H1.
  destruct (shr_fexp pr em m e l) as [mrs' e']. simpl in H1.
  pose proof (shr_fexp_nonneg pr em _ e' loc_Exact
                (round_nearest_even_nonneg _ (loc_of_shr_record mrs') H1)) as H2.
  destruct (shr_fexp pr em _ e' loc_Exact) as [mrs'' e'']. simpl in H2.
  destruct (shr_m mrs'') as [|p|p]; [done | | lia].
  by destruct (e'' <=? em - pr).
Qed.

Lemma binary_round_nonneg pr em m e :
  SF_nonneg (binary_round pr em false m e) = true.
Proof.
  unfold binary_round. destruct (shl_align _ _ _) as [mz ez].
  by apply binary_round_aux_nonneg.
Qed.

Lemma binary_normalize_nonneg pr em m e :
  0 ≤ m → SF_nonneg (binary_normalize pr em m e false) = true.
Proof.
  intros Hm. destruct m as [|p|p]; simpl; [done | | lia].
  apply binary_round_nonneg.
Qed.

Lemma SFadd_nonneg pr em x y :
  SF_nonneg x = true → SF_nonneg y = true → SF_nonneg (SFadd pr em x y) = true.
Proof.
  destruct x as [sx|[]| |[] mx ex], y as [sy|[]| |[] my ey]; simpl; try done.
  - by destruct sx, sy.
  - intros _ _. apply binary_round_nonneg.
Qed.

Lemma SFmul_nonneg pr em x m e :
  SF_nonneg x = true → SF_nonneg (SFmul pr em x (S754_finite false m e)) = true.
Proof.
  destruct x as [sx|[]| |[] mx ex]; simpl; try done.
  intros _. by apply binary_round_aux_nonneg.
Qed.

Lemma SFdiv_nonneg pr em x m e :
  SF_nonneg x = true → SF_nonneg (SFdiv pr em x (S754_finite false m e)) = true.
Proof.
  destruct x as [sx|[]| |[] mx ex]; simpl; try done.
  intros _. unfold SFdiv_core_binary.
  set (m' := match _ with Z0 => _ | Zpos _ => _ | Zneg _ => _ end).
  assert (Hm' : 0 ≤ m').
  { subst m'. destruct (_ - _ - _); [lia | | lia]. apply Z.shiftl_nonneg. lia. }
  pose proof (Z.div_pos m' (Z.pos m) Hm' eq_refl) as Hq.
  unfold Z.div in Hq. destruct (Z.div_eucl m' (Z.pos m)) as [q r].
  by apply binary_round_aux_nonneg.
Qed.

Lemma add_nonneg x y : nonneg x = true → nonneg y = true → nonneg (x + y) = true.
Proof. rewrite !nonneg_spec, add_spec. apply SFadd_nonneg. Qed.

Lemma mul_nonneg_finite x y m e :
  Prim2SF y = S754_finite false m e → nonneg x = true → nonneg (x * y) = true.
Proof. intros Hy. rewrite !nonneg_spec, mul_spec, Hy. apply SFmul_nonneg. Qed.

Lemma div_nonneg_finite x y m e :
  Prim2SF y = S754_finite false m e → nonneg x = true → nonneg (x / y) = true.
Proof. intros Hy. rewrite !nonneg_spec, div_spec, Hy. apply SFdiv_nonneg. Qed.

Lemma nearest_float_uint63 z :
  0 ≤ z < 2 ^ 63 → Prim2SF (nearest_float z) = binary_normalize prec emax z 0 false.
Proof.
  intros Hz. unfold nearest_float.
  assert (Hn : Uint63.to_Z (Uint63.of_Z z) = z).
  { rewrite Uint63.of_Z_spec. apply Z.mod_small. exact Hz. }
  rewrite <- Hn at 1. rewrite <- of_uint63_spec, SF2Prim_Prim2SF.
  by rewrite of_uint63_spec, Hn.
Qed.

Lemma nearest_float_nonneg z : 0 ≤ z < 2 ^ 63 → nonneg (nearest_float z) = true.
Proof.
  intros Hz. rewrite nonneg_spec, nearest_float_uint63 by done.
  apply binary_normalize_nonneg. lia.
Qed.

Lemma dd_iadd_nonneg `{Countable K} (d : gmap K float) k x :
  (∀ k' v, d !! k' = Some v → nonneg v = true) → nonneg x = true →
  ∀ k' v, dd_iadd d k x !! k' = Some v → nonneg v = true.
Proof.
  intros Hd Hx k' v. unfold dd_iadd, dict_get. rewrite lookup_insert.
  case_decide; [|apply Hd]. intros [= <-]. apply add_nonneg; [|done].
  destruct (d !! k) as [v0|] eqn:E; simpl; [by apply (Hd k)|done].
Qed.

Lemma dd_touch_nonneg `{Countable K} (d : gmap K float) k :
  (∀ k' v, d !! k' = Some v → nonneg v = true) →
  ∀ k' v, dd_touch d k !! k' = Some v → nonneg v = true.
Proof.
  intros Hd k' v. unfold dd_touch. destruct (d !! k); [apply Hd|].
  rewrite lookup_insert. case_decide; [|apply Hd]. by intros [= <-].
Qed.

Lemma prefs_iadd_lookup_cases p u i x u' i' :
  pref_lookup (prefs_iadd p u i x) u' i'
  = if decide ((u, i) = (u', i'))
    then Some (default 0%float (pref_lookup p u i) + x)%float
    else pref_lookup p u' i'.
Proof.
  case_decide as Hk.
  - injection Hk as <- <-. apply prefs_iadd_lookup.
  - destruct (decide (u = u')) as [<-|Hu].
    + apply prefs_iadd_lookup_item_ne. congruence.
    + unfold pref_lookup. by rewrite prefs_iadd_lookup_user_ne.
Qed.

Lemma prefs_iadd_nonneg p u i x :
  (∀ u' i' v, pref_lookup p u' i' = Some v → nonneg v = true) → nonneg x = true →
  ∀ u' i' v, pref_lookup (prefs_iadd p u i x) u' i' = Some v → nonneg v = true.
Proof.
  intros Hp Hx u' i' v. rewrite prefs_iadd_lookup_cases.
  case_decide; [|apply Hp]. intros [= <-]. apply add_nonneg; [|done].
  destruct (pref_lookup p u i) as [v0|] eqn:E; simpl; [by apply (Hp u i)|done].
Qed.

Lemma order_reward_nonneg n total : nonneg (order_reward n total) = true.
Proof.
  rewrite order_reward_cases. by destruct (500 <? total)%float, (3 <? n)%nat.
Qed.

Lemma order_line_nonneg user reward it self :
  nonneg reward = true → 0 ≤ quantity_of it < 2 ^ 63 →
  scores_nonneg self → scores_nonneg (order_line user reward it self).2.
Proof.
  intros Hr Hqty (Hq & Hp & Hpop). unfold order_line.
  assert (Hp1 : ∀ u i v,
            pref_lookup (prefs_getitem (user_preferences self) user).2 u i = Some v →
            nonneg v = true)
    by (intros u i v; rewrite pref_lookup_touch; apply Hp).
  destruct (float_of_int (quantity_of it)) as [qf|e] eqn:E; simpl.
  - assert (qf = nearest_float (quantity_of it)) as ->.
    { unfold float_of_int in E. by destruct (binary_normalize _ _ _ _ _); simplify_eq. }
    repeat split; simpl.
    + by apply dd_iadd_nonneg.
    + by apply prefs_iadd_nonneg.
    + apply dd_iadd_nonneg; [done|].
      apply (mul_nonneg_finite _ 0.5%float 4503599627370496%positive (-53) eq_refl).
      by apply nearest_float_nonneg.
  - repeat split; simpl.
    + by apply dd_iadd_nonneg.
    + done.
    + by apply dd_touch_nonneg.
Qed.

Lemma order_loop_nonneg user reward items : ∀ self,
  nonneg reward = true → Forall (λ it, 0 ≤ quantity_of it < 2 ^ 63) items →
  scores_nonneg self → scores_nonneg (order_loop user reward items self).2.
Proof.
  induction items as [|it rest IH]; intros self Hr Hqty Hself; [done|].
  apply Forall_cons in Hqty as [Hit Hrest]. simpl.
  pose proof (order_line_nonneg user reward it self Hr Hit Hself) as Hline.
  destruct (order_line user reward it self) as [[[]|e] self1]; simpl in *;
    [by apply IH | done].
Qed.

Lemma apply_event_nonneg self ev :
  event_nonneg ev → scores_nonneg self → scores_nonneg (apply_event self ev).
Proof.
  destruct ev as [u i sid|u order now|u i s]; simpl; intros Hev Hself.
  - destruct Hself as (Hq & Hp & Hpop). repeat split; simpl.
    + by apply dd_iadd_nonneg.
    + by apply prefs_iadd_nonneg.
    + by apply dd_iadd_nonneg.
  - unfold record_order_completed.
    pose proof (order_loop_nonneg u (order_reward (length (items_of order)) (total_of order))
                  (items_of order) self (order_reward_nonneg _ _) Hev Hself) as Hloop.
    by destruct (order_loop _ _ _ _) as [[[]|e] self1].
  - destruct Hself as (Hq & Hp & Hpop).
    assert (Hf : nonneg (normalize_feedback s) = true).
    { unfold normalize_feedback. destruct (1 <? s)%float; [|done].
      by apply (div_nonneg_finite _ 5.0%float 5629499534213120%positive (-50) eq_refl). }
    repeat split; simpl.
    + apply dd_iadd_nonneg; [done|].
      by apply (mul_nonneg_finite _ alpha 7205759403792794%positive (-56) eq_refl).
    + by apply prefs_iadd_nonneg.
    + done.
Qed.

Lemma run_events_nonneg evs : ∀ self,
  Forall event_nonneg evs → scores_nonneg self → scores_nonneg (run_events evs self).
Proof.
  induction evs as [|ev evs IH]; intros self Hevs Hself; [done|].
  apply Forall_cons in Hevs as [Hev Hrest]. simpl.
  apply IH; [done|]. by apply apply_event_nonneg.
Qed.




Lemma record_item_selected_iter_witness :
  dict_get (q_values (Nat.iter 3 (record_item_selected 1 1 None) init)) (1, 1)
    = 0.30000000000000004%float ∧
  q_values (Nat.iter 3 (record_item_selected 1 1 None) init) !! (2, 2) = None.
Proof.
  destruct (record_item_selected_iter 3 1 1 None init) as (Hq & Hqo & _).
  cbv zeta in Hq, Hqo. unfold dict_get. rewrite Hq, (Hqo (2, 2)) by done.
  by vm_compute.
Defined.

(** * Part IV: further properties of the code

    ** Order of floats *)

Ltac sf_compare_cases :=
  repeat match goal with
  | |- context [Z.compare ?a ?b] => destruct (Z.compare_spec a b)
  | H : context [Z.compare ?a ?b] |- _ => destruct (Z.compare_spec a b)
  | |- context [Pos.compare_cont Eq ?a ?b] =>
      change (Pos.compare_cont Eq a b) with (Pos.compare a b);
      destruct (Pos.compare_spec a b)
  | H : context [Pos.compare_cont Eq ?a ?b] |- _ =>
      change (Pos.compare_cont Eq a b) with (Pos.compare a b) in H;
      destruct (Pos.compare_spec a b)
  end.

Lemma SFleb_trans x y z :
  SFleb x y = true → SFleb y z = true → SFleb x z = true.
Proof.
  unfold SFleb, SFcompare.
  destruct x as [[]|[]| |[] mx ex], y as [[]|[]| |[] my ey], z as [[]|[]| |[] mz ez];
    try done; sf_compare_cases; simpl in *; try done; try lia.
Qed.

Lemma SFltb_SFleb x y : SFltb x y = true → SFleb x y = true.
Proof. unfold SFltb, SFleb. by destruct (SFcompare x y) as [[]|]. Qed.

Lemma SFltb_false_SFleb x y :
  SF_number x = true → SF_number y = true → SFltb x y = false → SFleb y x = true.
Proof.
  unfold SFltb, SFleb, SFcompare.
  destruct x as [[]|[]| |[] mx ex], y as [[]|[]| |[] my ey];
    try done; sf_compare_cases; simpl in *; try done; try lia.
Qed.

Lemma is_number_spec x : is_number x = SF_number (Prim2SF x).
Proof.
  unfold is_number. rewrite FloatAxioms.eqb_spec. unfold SFeqb, SFcompare.
  destruct (Prim2SF x) as [[]|[]| |[] m e]; try done;
    sf_compare_cases; simpl; try done; lia.
Qed.

Lemma leb_trans x y z :
  (x <=? y)%float = true → (y <=? z)%float = true → (x <=? z)%float = true.
Proof. rewrite !leb_spec. apply SFleb_trans. Qed.

Lemma ltb_leb x y : (x <? y)%float = true → (x <=? y)%float = true.
Proof. rewrite ltb_spec, leb_spec. apply SFltb_SFleb. Qed.

Lemma ltb_false_leb x y :
  is_number x = true → is_number y = true →
  (x <? y)%float = false → (y <=? x)%float = true.
Proof. rewrite !is_number_spec, ltb_spec, leb_spec. apply SFltb_false_SFleb. Qed.

Lemma leb_refl x : is_number x = true → (x <=? x)%float = true.
Proof.
  unfold is_number. rewrite FloatAxioms.eqb_spec, leb_spec. unfold SFeqb, SFleb.
  by destruct (SFcompare _ _) as [[]|].
Qed.

Lemma nonneg_is_number x : nonneg x = true → is_number x = true.
Proof.
  rewrite nonneg_spec, is_number_spec. by destruct (Prim2SF x) as [[]|[]| |[] m e].
Qed.

(** ** Sorting by a float key *)

Section SortFacts.
Context {A : Type} (key : A → float).

Lemma insert_by_desc_perm x l : insert_by_desc key x l ≡ₚ x :: l.
Proof.
  induction l as [|y l IH]; simpl; [done|].
  destruct (key x <? key y)%float; [|done].
  rewrite IH. apply Permutation_swap.
Qed.

Lemma sorted_by_desc_perm l : sorted_by_desc key l ≡ₚ l.
Proof.
  induction l as [|x l IH]; simpl; [done|].
  by rewrite insert_by_desc_perm, IH.
Qed.

Lemma insert_by_desc_descending x l :
  is_number (key x) = true → Forall (λ y, is_number (key y) = true) l →
  descending key l → descending key (insert_by_desc key x l).
Proof.
  unfold descending. intros Hx Hl Hs.
  induction l as [|y l IH]; simpl.
  - repeat constructor.
  - apply Forall_cons in Hl as [Hy Hl].
    apply StronglySorted_cons in Hs as [Hyl Hs].
    destruct (key x <? key y)%float eqn:E.
    + apply StronglySorted_cons. split; [|by apply IH].
      rewrite insert_by_desc_perm. apply Forall_cons. split; [by apply ltb_leb | done].
    + assert (Hyx : (key y <=? key x)%float = true) by by apply ltb_false_leb.
      apply StronglySorted_cons. split; [|by apply StronglySorted_cons].
      apply Forall_cons. split; [done|].
      eapply Forall_impl; [exact Hyl|]. simpl. intros z Hz. by eapply leb_trans.
Qed.

Lemma sorted_by_desc_descending l :
  Forall (λ y, is_number (key y) = true) l → descending key (sorted_by_desc key l).
Proof.
  induction l as [|x l IH]; simpl; intros Hl; [constructor|].
  apply Forall_cons in Hl as [Hx Hl]. apply insert_by_desc_descending; [done| |by apply IH].
  by rewrite sorted_by_desc_perm.
Qed.

Lemma sorted_by_desc_ties l :
  (∀ x y, x ∈ l → y ∈ l → (key x <? key y)%float = false) → sorted_by_desc key l = l.
Proof.
  induction l as [|x l IH]; simpl; intros Hl; [done|].
  rewrite IH by (intros y z Hy Hz; apply Hl; by right).
  destruct l as [|y l]; simpl; [done|].
  rewrite Hl; [done | by left | by right; left].
Qed.

End SortFacts.

Lemma sorted_desc_by l : sorted_desc l = sorted_by_desc rl_score l.
Proof. induction l as [|x l IH]; simpl; [done|]. rewrite IH. clear IH.
  generalize (sorted_by_desc rl_score l) as l'. intros l'.
  induction l' as [|y l' IH]; simpl; [done|]. by rewrite IH.
Qed.

(** ** The log of shown recommendations *)

(** X1. Logging what the recommender returned: the call appends one record
    to the history, for that user, not completed and without reward,
    listing every returned recommendation in order (the cap of five of the
    log never cuts the recommender's list); it returns the fresh identifier
    and changes neither the learned mappings nor the earlier records. *)
Theorem shown_logs_every_recommendation user avail g state_id now (self : rl_object) :
  let recs := (get_personalized_recommendations user avail g (learned self)).1 in
  ∃ r,
    record_recommendation_shown user recs state_id now self
      = (state_id, {| learned := learned self;
                      state_action_history := state_action_history self ++ [r] |}) ∧
    sa_state_id r = state_id ∧ sa_user_id r = user ∧
    sa_completed r = false ∧ sa_reward r = None ∧
    (sa_recommendations r).*1 = (mi_item_id ∘ si_item) <$> recs ∧
    length (sa_recommendations r) = length recs.
Proof.
  intros recs. eexists. split; [reflexivity|]. simpl.
  assert (Htake : take 5 recs = recs).
  { subst recs. rewrite recommendations_scored. simpl. apply take_idemp. }
  rewrite Htake. repeat split.
  - by rewrite <- list_fmap_compose.
  - by rewrite length_fmap.
Qed.

(** X2. The summary counts the shown events of the user: after any run of
    calls, the interactions of a user are those counted before plus the
    number of times recommendations were shown to that user in the run;
    updates and other users' events do not count. *)
Theorem total_interactions_counts_shown dict_items (cs : list call) (self : rl_object) u :
  ss_total_interactions (get_state_summary dict_items u (run_calls cs self))
  = (ss_total_interactions (get_state_summary dict_items u self) + shown_to u cs)%nat.
Proof.
  revert self. induction cs as [|c cs IH]; intros self.
  - simpl. lia.
  - change (run_calls (c :: cs) self) with (run_calls cs (apply_call self c)).
    rewrite IH. destruct c as [u' recs sid now|ev]; cbn [shown_to].
    + unfold get_state_summary. cbn [ss_total_interactions apply_call
        record_recommendation_shown snd state_action_history].
      rewrite filter_app, length_app, filter_cons, filter_nil.
      cbn [sa_user_id]. repeat case_decide; simpl; try done; lia.
    + done.
Qed.

(** ** The summary of a user *)

Lemma elem_of_take_list {A} (x : A) n l : x ∈ take n l → x ∈ l.
Proof. rewrite elem_of_take. intros (i & Hi & _). by eapply list_elem_of_lookup_2. Qed.

(** X3. The top items of the summary, for any order in which the user's
    dictionary lists its entries: they are [min 5 n] of the user's [n]
    entries, each with its stored weight and no item twice; when the
    weights are numbers they come best first, and no entry left out has a
    weight above one that is listed. *)
Theorem state_summary_top_items dict_items u (self : rl_object) :
  (∀ d, dict_items d ≡ₚ map_to_list d) →
  let prefs := default ∅ (user_preferences (learned self) !! u) in
  let summary := get_state_summary dict_items u self in
  let top := ss_top_items summary in
  length top = Nat.min 5 (ss_learned_items summary) ∧
  (∀ i w, (i, w) ∈ top → prefs !! i = Some w) ∧
  NoDup top.*1 ∧
  ((∀ i w, prefs !! i = Some w → is_number w = true) →
   descending snd top ∧
   ∀ i w j v, prefs !! i = Some w → (i, w) ∉ top → (j, v) ∈ top →
              (w <=? v)%float = true).
Proof.
  intros Hitems prefs summary top.
  set (sorted := sorted_by_desc snd (dict_items prefs)).
  assert (Hperm : sorted ≡ₚ map_to_list prefs)
    by (unfold sorted; by rewrite sorted_by_desc_perm, Hitems).
  assert (Htop : top = take 5 sorted) by done.
  split; [|split; [|split]].
  - rewrite Htop, length_take, Hperm, length_map_to_list. done.
  - intros i w Hin. rewrite Htop in Hin. apply elem_of_take_list in Hin.
    rewrite Hperm in Hin. by apply elem_of_map_to_list.
  - rewrite Htop, fmap_take. eapply sublist_NoDup; [|apply sublist_take].
    rewrite Hperm. apply NoDup_fst_map_to_list.
  - intros Hnum.
    assert (Hsorted : descending snd sorted).
    { apply sorted_by_desc_descending. apply Forall_forall. intros [i w] Hin.
      apply (Hnum i w). apply elem_of_map_to_list. by rewrite <- Hitems. }
    unfold descending in *. rewrite <- (take_drop 5 sorted) in Hsorted.
    split; [rewrite Htop; by eapply StronglySorted_app_1_l|].
    intros i w j v Hi Hout Hin.
    assert (Hdrop : (i, w) ∈ drop 5 sorted).
    { apply elem_of_map_to_list in Hi. rewrite <- Hperm, <- (take_drop 5 sorted) in Hi.
      apply elem_of_app in Hi as [Hi|Hi]; [|done]. by rewrite Htop in Hout. }
    rewrite Htop in Hin.
    exact (StronglySorted_app_1_elem_of _ _ _ _ _ Hsorted Hin Hdrop).
Qed.

Lemma state_summary_top_items_witness :
  length (ss_top_items (get_state_summary map_to_list 3 example_object)) = 2%nat ∧
  NoDup (ss_top_items (get_state_summary map_to_list 3 example_object)).*1.
Proof.
  destruct (state_summary_top_items map_to_list 3 example_object) as (Hlen & _ & Hnd & _).
  - done.
  - split; [|exact Hnd]. cbv zeta in Hlen. rewrite Hlen. by vm_compute.
Defined.

(** X4. What a selection adds to the summary: the number of learned items
    of the user grows by one when the item is new to the user and is
    unchanged otherwise; the summaries of the other users keep theirs. *)
Theorem learned_items_after_selection dict_items u i sid (self : rl_object) :
  let self' := apply_call self (Update (ItemSelected u i sid)) in
  ss_learned_items (get_state_summary dict_items u self')
  = match pref_lookup (user_preferences (learned self)) u i with
    | Some _ => ss_learned_items (get_state_summary dict_items u self)
    | None => S (ss_learned_items (get_state_summary dict_items u self))
    end ∧
  ∀ u', u' ≠ u →
    ss_learned_items (get_state_summary dict_items u' self')
    = ss_learned_items (get_state_summary dict_items u' self).
Proof.
  cbn zeta. unfold get_state_summary. cbn [ss_learned_items apply_call learned apply_event
    record_item_selected user_preferences]. split.
  - unfold prefs_iadd, prefs_getitem, pref_lookup, dd_iadd.
    destruct (user_preferences (learned self) !! u) as [inner|] eqn:E; simpl;
      rewrite lookup_insert_eq; simpl; rewrite map_size_insert.
    + by destruct (inner !! i).
    + by rewrite lookup_empty.
  - intros u' Hu'. by rewrite prefs_iadd_lookup_user_ne.
Qed.

(** ** Recommendations, their items and their order *)

Lemma score_loop_annotate user items self :
  (score_loop user (default ∅ (user_preferences self !! user)) items self).1
  = annotate user self <$> items.
Proof.
  induction items as [|it rest IH]; simpl; [done|].
  destruct (score_loop _ _ rest self) as [ss self2]. simpl in *. by rewrite IH.
Qed.

Lemma recommendations_annotated user avail g self :
  (get_personalized_recommendations user avail g self).1
  = let scored := annotate user self <$> avail in
    take 5 (if explores g (length avail)
            then take 3 (sorted_by_desc rl_score scored)
                 ++ random_sample (rnd_draw g) (Nat.min 2 (length avail)) scored
            else sorted_by_desc rl_score scored).
Proof.
  rewrite recommendations_scored. cbn zeta. cbn [fst].
  by rewrite score_loop_annotate, length_fmap, !sorted_desc_by.
Qed.

Lemma random_sample_submseteq {A} draw k (pool : list A) :
  random_sample draw k pool ⊆+ pool.
Proof.
  revert pool. induction k as [|k IH]; intros pool; simpl.
  - apply submseteq_nil_l.
  - destruct (pool !! (draw k mod length pool)%nat) as [x|] eqn:E;
      [|apply submseteq_nil_l].
    transitivity (x :: delete (draw k mod length pool)%nat pool).
    + by apply submseteq_skip.
    + apply Permutation_submseteq. symmetry. by apply delete_Permutation.
Qed.

(** X5. Recommendations come from the candidates: every returned item is
    one of the candidates passed in, with its other fields untouched, its
    stored Q-value and preference weight (0 when there is none) attached,
    and the score 0.4*q + 0.4*pref + 0.2*(0.1*popularity). *)
Theorem recommendations_are_candidates user avail g self r :
  r ∈ (get_personalized_recommendations user avail g self).1 →
  si_item r ∈ avail ∧
  q_value r = dict_get (q_values self) (user, mi_item_id (si_item r)) ∧
  preference r = pref_get (user_preferences self) user (mi_item_id (si_item r)) ∧
  rl_score r = (q_value r * 0.4 + preference r * 0.4
                + dict_get (item_popularity self) (mi_item_id (si_item r)) * 0.1 * 0.2)%float.
Proof.
  rewrite recommendations_annotated. cbn zeta. intros Hr%elem_of_take_list.
  assert (Hin : r ∈ annotate user self <$> avail).
  { destruct (explores g (length avail)).
    - apply elem_of_app in Hr as [Hr%elem_of_take_list|Hr].
      + by rewrite sorted_by_desc_perm in Hr.
      + eapply elem_of_submseteq; [exact Hr | apply random_sample_submseteq].
    - by rewrite sorted_by_desc_perm in Hr. }
  apply list_elem_of_fmap in Hin as (item & -> & Hitem). by repeat split.
Qed.

Lemma recommendations_are_candidates_witness :
  let r := annotate 1 init {| mi_item_id := 1; mi_fields := [] |} in
  si_item r ∈ four_candidates ∧ rl_score r = 0%float.
Proof.
  intros r.
  assert (Hr : r ∈ (get_personalized_recommendations 1 four_candidates exploring_rng init).1)
    by (vm_compute; apply list_elem_of_here).
  destruct (recommendations_are_candidates 1 four_candidates exploring_rng init r Hr)
    as (Hitem & Hq & Hp & Hs).
  split; [exact Hitem|]. rewrite Hs, Hq, Hp. reflexivity.
Defined.

Lemma dict_get_nonneg `{Countable K} (d : gmap K float) k :
  (∀ k' v, d !! k' = Some v → nonneg v = true) → nonneg (dict_get d k) = true.
Proof.
  intros Hd. unfold dict_get. destruct (d !! k) as [v|] eqn:E; simpl; [by eapply Hd|done].
Qed.

Lemma annotate_nonneg user self item :
  scores_nonneg self → nonneg (rl_score (annotate user self item)) = true.
Proof.
  intros (Hq & Hp & Hpop). unfold annotate, score_item. cbn [fst rl_score].
  repeat apply add_nonneg.
  - eapply mul_nonneg_finite; [reflexivity|]. by apply dict_get_nonneg.
  - eapply mul_nonneg_finite; [reflexivity|]. apply dict_get_nonneg.
    intros i v Hi. apply (Hp user i v). unfold pref_lookup.
    by destruct (user_preferences self !! user).
  - eapply mul_nonneg_finite; [reflexivity|].
    eapply mul_nonneg_finite; [reflexivity|]. by apply dict_get_nonneg.
Qed.

(** X6. Without exploration the best candidates come first: when the
    stored scores are numbers that are not negative, the result is the
    first [min 5 k] entries of an arrangement of all [k] annotated
    candidates in descending order of score, so no candidate left out scores
    higher than one that is returned. *)
Theorem greedy_recommendations_best_first user avail g self :
  scores_nonneg self →
  explores g (length avail) = false →
  let result := (get_personalized_recommendations user avail g self).1 in
  ∃ rest,
    result ++ rest ≡ₚ annotate user self <$> avail ∧
    descending rl_score (result ++ rest) ∧
    length result = Nat.min 5 (length avail).
Proof.
  intros Hself Hex result. subst result. rewrite recommendations_annotated.
  cbn zeta. rewrite Hex.
  exists (drop 5 (sorted_by_desc rl_score (annotate user self <$> avail))).
  rewrite take_drop. split; [apply sorted_by_desc_perm|]. split.
  - apply sorted_by_desc_descending. apply Forall_fmap, Forall_forall.
    intros item _. simpl. by apply nonneg_is_number, annotate_nonneg.
  - by rewrite length_take, sorted_by_desc_perm, length_fmap.
Qed.

Lemma greedy_recommendations_best_first_witness :
  ∃ rest,
    (get_personalized_recommendations 3 four_candidates
       {| rnd_random := 0.5%float; rnd_draw := λ _, 0%nat |} example_loop).1 ++ rest
    ≡ₚ annotate 3 example_loop <$> four_candidates.
Proof.
  destruct (greedy_recommendations_best_first 3 four_candidates
              {| rnd_random := 0.5%float; rnd_draw := λ _, 0%nat |} example_loop)
    as (rest & Hperm & _).
  - apply (run_events_nonneg
             [ItemSelected (-1) 7 None; ItemSelected 3 8 None; UserFeedback 3 7 4.5%float]).
    + repeat (apply Forall_cons_2; [done|]). apply Forall_nil_2.
    + repeat split; intros *; unfold init, pref_lookup; simpl; by rewrite lookup_empty.
  - reflexivity.
  - by exists rest.
Defined.

(** X7. Ties keep the input order, and so does a cold start: without
    exploration, candidates none of which scores below another are returned
    in the order they were passed, the first five of them; on a fresh loop
    every candidate scores 0, so the result is the first five candidates. *)
Theorem recommendations_keep_order_on_ties user avail g self :
  explores g (length avail) = false →
  ((∀ a b, a ∈ avail → b ∈ avail →
      (rl_score (annotate user self a) <? rl_score (annotate user self b))%float = false) →
   (get_personalized_recommendations user avail g self).1
   = take 5 (annotate user self <$> avail)) ∧
  (get_personalized_recommendations user avail g init).1
  = take 5 ((λ item, {| si_item := item; rl_score := 0; q_value := 0; preference := 0 |})
              <$> avail).
Proof.
  intros Hex.
  assert (Hties : ∀ self',
    (∀ a b, a ∈ avail → b ∈ avail →
       (rl_score (annotate user self' a) <? rl_score (annotate user self' b))%float = false) →
    (get_personalized_recommendations user avail g self').1
    = take 5 (annotate user self' <$> avail)).
  { intros self' Hno. rewrite recommendations_annotated. cbn zeta. rewrite Hex.
    f_equal. apply sorted_by_desc_ties.
    intros x y (a & -> & Ha)%list_elem_of_fmap (b & -> & Hb)%list_elem_of_fmap.
    by apply Hno. }
  split; [apply Hties|]. rewrite Hties; [done|]. by intros a b _ _.
Qed.

Lemma recommendations_keep_order_on_ties_witness :
  (mi_item_id ∘ si_item)
    <$> (get_personalized_recommendations 1 four_candidates
           {| rnd_random := 0.5%float; rnd_draw := λ _, 0%nat |} init).1
  = [1; 2; 3; 4].
Proof.
  destruct (recommendations_keep_order_on_ties 1 four_candidates
              {| rnd_random := 0.5%float; rnd_draw := λ _, 0%nat |} init eq_refl)
    as [_ Hcold].
  rewrite Hcold. reflexivity.
Defined.

(** X8. The exploration branch, when the stored scores are numbers that
    are not negative (so that no score is NaN and the order of the sort
    is determined): the result is the three best candidates, the first
    three of the arrangement of all annotated candidates in descending
    order of score, followed by two candidates drawn from two different
    positions of the candidate list. Each group is taken from the
    annotated candidates without repetition, so a candidate is returned
    twice at most, once in each group. *)
Theorem exploring_recommendations_shape user avail g self :
  scores_nonneg self →
  explores g (length avail) = true →
  let scored := annotate user self <$> avail in
  ∃ best sampled rest,
    (get_personalized_recommendations user avail g self).1 = best ++ sampled ∧
    length best = 3%nat ∧ length sampled = 2%nat ∧
    best ⊆+ scored ∧ sampled ⊆+ scored ∧
    best = take 3 (sorted_by_desc rl_score scored) ∧
    best ++ rest ≡ₚ scored ∧ descending rl_score (best ++ rest).
Proof.
  intros Hself Hex scored.
  assert (Hlen : (3 < length avail)%nat).
  { unfold explores in Hex. apply andb_true_iff in Hex as [_ Hk]. by apply Nat.ltb_lt. }
  exists (take 3 (sorted_by_desc rl_score scored)),
         (random_sample (rnd_draw g) 2 scored),
         (drop 3 (sorted_by_desc rl_score scored)).
  assert (Hbest : length (take 3 (sorted_by_desc rl_score scored)) = 3%nat).
  { rewrite length_take, sorted_by_desc_perm. unfold scored. rewrite length_fmap. lia. }
  assert (Hsampled : length (random_sample (rnd_draw g) 2 scored) = 2%nat).
  { apply random_sample_length. unfold scored. rewrite length_fmap. lia. }
  rewrite take_drop.
  split; [|repeat split; try done].
  - rewrite recommendations_annotated. cbn zeta. rewrite Hex. fold scored.
    replace (Nat.min 2 (length avail)) with 2%nat by lia.
    apply take_ge. rewrite length_app, Hbest, Hsampled. lia.
  - transitivity (sorted_by_desc rl_score scored); [apply submseteq_take|].
    apply Permutation_submseteq, sorted_by_desc_perm.
  - apply random_sample_submseteq.
  - apply sorted_by_desc_perm.
  - apply sorted_by_desc_descending. apply Forall_fmap, Forall_forall.
    intros item _. simpl. by apply nonneg_is_number, annotate_nonneg.
Qed.

Lemma exploring_recommendations_shape_witness :
  ∃ best sampled,
    (get_personalized_recommendations 1 four_candidates exploring_rng init).1
      = best ++ sampled ∧
    length best = 3%nat ∧ length sampled = 2%nat.
Proof.
  destruct (exploring_recommendations_shape 1 four_candidates exploring_rng init)
    as (best & sampled & rest & Hres & Hb & Hs & _).
  - repeat split; intros *; unfold init, pref_lookup; simpl; by rewrite lookup_empty.
  - reflexivity.
  - by exists best, sampled.
Defined.

(** ** Update events: what they keep and how they compose *)

Lemma prefs_iadd_lookup_user p u i x u' :
  prefs_iadd p u i x !! u'
  = if decide (u = u') then Some (dd_iadd (default ∅ (p !! u)) i x) else p !! u'.
Proof.
  case_decide as Hu; [subst u'|by apply prefs_iadd_lookup_user_ne].
  unfold prefs_iadd, prefs_getitem.
  destruct (p !! u) as [inner|]; simpl; by rewrite lookup_insert_eq.
Qed.

Lemma dd_iadd_is_Some `{Countable K} (d : gmap K float) k x k' :
  is_Some (d !! k') → is_Some (dd_iadd d k x !! k').
Proof.
  intros Hk'. unfold dd_iadd. rewrite lookup_insert. by case_decide.
Qed.

Lemma dd_touch_is_Some `{Countable K} (d : gmap K float) k k' :
  is_Some (d !! k') → is_Some (dd_touch d k !! k').
Proof.
  intros Hk'. unfold dd_touch. destruct (d !! k); [done|].
  rewrite lookup_insert. by case_decide.
Qed.

Lemma prefs_iadd_is_Some p u i x u' i' :
  is_Some (pref_lookup p u' i') → is_Some (pref_lookup (prefs_iadd p u i x) u' i').
Proof. intros Hk'. rewrite prefs_iadd_lookup_cases. by case_decide. Qed.

Lemma keys_kept_refl self : keys_kept self self.
Proof. by repeat split. Qed.

Lemma keys_kept_trans s1 s2 s3 : keys_kept s1 s2 → keys_kept s2 s3 → keys_kept s1 s3.
Proof.
  intros (Hq & Hp & Hu & Hi) (Hq' & Hp' & Hu' & Hi'). repeat split; intros; eauto.
Qed.

Lemma prefs_iadd_user_is_Some p u i x u' :
  is_Some (p !! u') → is_Some (prefs_iadd p u i x !! u').
Proof. intros Hu'. rewrite prefs_iadd_lookup_user. by case_decide. Qed.

Lemma prefs_getitem_user_is_Some p u u' :
  is_Some (p !! u') → is_Some ((prefs_getitem p u).2 !! u').
Proof.
  intros Hu'. unfold prefs_getitem. destruct (p !! u) eqn:E; simpl; [done|].
  rewrite lookup_insert. by case_decide.
Qed.

Lemma order_line_keys_kept user reward it self :
  keys_kept self (order_line user reward it self).2.
Proof.
  unfold order_line. destruct (float_of_int (quantity_of it)); simpl;
    repeat split; simpl; intros.
  - by apply dd_iadd_is_Some.
  - apply prefs_iadd_is_Some. by rewrite pref_lookup_touch.
  - by apply prefs_iadd_user_is_Some, prefs_getitem_user_is_Some.
  - by apply dd_iadd_is_Some.
  - by apply dd_iadd_is_Some.
  - by rewrite pref_lookup_touch.
  - by apply prefs_getitem_user_is_Some.
  - by apply dd_touch_is_Some.
Qed.

Lemma order_loop_keys_kept user reward items : ∀ self,
  keys_kept self (order_loop user reward items self).2.
Proof.
  induction items as [|it rest IH]; intros self; simpl; [apply keys_kept_refl|].
  pose proof (order_line_keys_kept user reward it self) as Hline.
  destruct (order_line user reward it self) as [[[]|e] self1]; simpl in *; [|done].
  eapply keys_kept_trans; [exact Hline | apply IH].
Qed.

Lemma apply_event_keys_kept self ev : keys_kept self (apply_event self ev).
Proof.
  destruct ev as [u i sid|u order now|u i s]; simpl.
  - repeat split; simpl; intros.
    + by apply dd_iadd_is_Some.
    + by apply prefs_iadd_is_Some.
    + by apply prefs_iadd_user_is_Some.
    + by apply dd_iadd_is_Some.
  - unfold record_order_completed.
    pose proof (order_loop_keys_kept u (order_reward (length (items_of order)) (total_of order))
                  (items_of order) self) as Hloop.
    by destruct (order_loop _ _ _ _) as [[[]|e] self1].
  - repeat split; simpl; intros.
    + by apply dd_iadd_is_Some.
    + by apply prefs_iadd_is_Some.
    + by apply prefs_iadd_user_is_Some.
    + done.
Qed.

(** X9. Nothing is ever forgotten: after any run of update events, also
    one in which an order raises, every (user, item) pair that had a
    Q-value or a preference weight still has one, every user that had a
    preference mapping still has it and every item that had a popularity
    still has one. *)
Theorem run_events_keeps_keys (evs : list event) (self : SimpleRLLoop) :
  keys_kept self (run_events evs self).
Proof.
  revert self. induction evs as [|ev evs IH]; intros self; simpl.
  - apply keys_kept_refl.
  - eapply keys_kept_trans; [apply apply_event_keys_kept | apply IH].
Qed.

Lemma order_line_other_users user reward it self u' :
  u' ≠ user →
  (∀ i, q_values (order_line user reward it self).2 !! (u', i) = q_values self !! (u', i)) ∧
  user_preferences (order_line user reward it self).2 !! u' = user_preferences self !! u'.
Proof.
  intros Hu. unfold order_line.
  destruct (float_of_int (quantity_of it)); simpl; split; intros;
    rewrite ?dd_iadd_lookup_ne by congruence;
    rewrite ?prefs_iadd_lookup_user_ne by done;
    rewrite ?prefs_getitem_user_ne by done; done.
Qed.

Lemma order_loop_other_users user reward items u' : ∀ self,
  u' ≠ user →
  (∀ i, q_values (order_loop user reward items self).2 !! (u', i) = q_values self !! (u', i)) ∧
  user_preferences (order_loop user reward items self).2 !! u' = user_preferences self !! u'.
Proof.
  induction items as [|it rest IH]; intros self Hu; simpl; [done|].
  destruct (order_line_other_users user reward it self u' Hu) as [Hq Hp].
  destruct (order_line user reward it self) as [[[]|e] self1]; simpl in *; [|done].
  destruct (IH self1 Hu) as [Hq' Hp']. split; intros; by rewrite ?Hq', ?Hp'.
Qed.

Lemma apply_event_other_users self ev u' :
  u' ≠ event_user ev →
  (∀ i, q_values (apply_event self ev) !! (u', i) = q_values self !! (u', i)) ∧
  user_preferences (apply_event self ev) !! u' = user_preferences self !! u'.
Proof.
  destruct ev as [u i sid|u order now|u i s]; simpl; intros Hu.
  - split; intros; [apply dd_iadd_lookup_ne; congruence | by apply prefs_iadd_lookup_user_ne].
  - unfold record_order_completed.
    pose proof (order_loop_other_users u (order_reward (length (items_of order)) (total_of order))
                  (items_of order) u' self Hu) as Hloop.
    by destruct (order_loop _ _ _ _) as [[[]|e] self1].
  - split; intros; [apply dd_iadd_lookup_ne; congruence | by apply prefs_iadd_lookup_user_ne].
Qed.

(** X10. Users do not touch each other's scores: a run of update events
    none of which belongs to [u'] leaves every Q-value of [u'] and the whole
    preference mapping of [u'] as they were, also when an order of the run
    raises. Only the popularity of items is shared. *)
Theorem run_events_other_users (evs : list event) (self : SimpleRLLoop) u' :
  Forall (λ ev, event_user ev ≠ u') evs →
  (∀ i, q_values (run_events evs self) !! (u', i) = q_values self !! (u', i)) ∧
  user_preferences (run_events evs self) !! u' = user_preferences self !! u'.
Proof.
  revert self. induction evs as [|ev evs IH]; intros self Hevs; simpl; [done|].
  apply Forall_cons in Hevs as [Hev Hrest].
  destruct (IH (apply_event self ev) Hrest) as [Hq Hp].
  destruct (apply_event_other_users self ev u') as [Hq' Hp']; [done|].
  split; intros; by rewrite ?Hq, ?Hp, ?Hq', ?Hp'.
Qed.

Lemma run_events_other_users_witness :
  q_values (run_events example_events example_loop) !! (3, 7) = Some 0.09000000000000001%float ∧
  user_preferences (run_events example_events example_loop) !! 3
    = user_preferences example_loop !! 3.
Proof.
  destruct (run_events_other_users example_events example_loop 3) as [Hq Hp].
  - repeat (apply Forall_cons_2; [done|]). apply Forall_nil_2.
  - split; [|exact Hp]. rewrite Hq. by vm_compute.
Defined.

Lemma dd_iadd_comm `{Countable K} (d : gmap K float) k k' x :
  dd_iadd (dd_iadd d k x) k' x = dd_iadd (dd_iadd d k' x) k x.
Proof.
  destruct (decide (k = k')) as [->|Hk]; [done|].
  apply map_eq. intros j. unfold dd_iadd, dict_get.
  rewrite !lookup_insert. repeat case_decide; simplify_eq; try done;
    by rewrite !lookup_insert_ne by done.
Qed.

Lemma prefs_iadd_comm p u i u' i' x :
  prefs_iadd (prefs_iadd p u i x) u' i' x = prefs_iadd (prefs_iadd p u' i' x) u i x.
Proof.
  apply map_eq. intros w. rewrite !prefs_iadd_lookup_user.
  destruct (decide (u = u')) as [->|Hu].
  - case_decide; [|done]. rewrite !decide_True by done. simpl. f_equal. apply dd_iadd_comm.
  - repeat case_decide; simplify_eq; try done.
Qed.

Lemma record_item_selected_comm u i sid u' i' sid' self :
  record_item_selected u i sid (record_item_selected u' i' sid' self)
  = record_item_selected u' i' sid' (record_item_selected u i sid self).
Proof.
  unfold record_item_selected. simpl. f_equal.
  - apply dd_iadd_comm.
  - apply prefs_iadd_comm.
  - apply dd_iadd_comm.
Qed.

Lemma select_all_perm (l1 l2 : list (Z * Z)) (self : SimpleRLLoop) :
  l1 ≡ₚ l2 → select_all l1 self = select_all l2 self.
Proof.
  intros Hperm. revert self.
  induction Hperm as [|[u i] l1 l2 _ IH|[u i] [u' i'] l|l1 l2 l3 _ IH1 _ IH2]; intros self.
  - done.
  - apply IH.
  - unfold select_all. simpl. by rewrite record_item_selected_comm.
  - by rewrite IH1, IH2.
Qed.

(** X11. The scores do not depend on the order of selections: two batches
    of selections that are permutations of each other, applied to the same
    loop, leave the same Q-value under every (user, item) pair, the same
    preference weight and the same popularity under every item, and the
    same users with a preference mapping; the two loops compare equal
    with [==], and every later recommendation is the same from both. (The
    order in which a [dict] lists its keys follows the order of the
    selections; it is not part of the statement.) *)
Theorem select_all_permutation (l1 l2 : list (Z * Z)) (self : SimpleRLLoop) :
  l1 ≡ₚ l2 →
  let s1 := select_all l1 self in
  let s2 := select_all l2 self in
  (∀ k, q_values s1 !! k = q_values s2 !! k) ∧
  (∀ u i, pref_lookup (user_preferences s1) u i = pref_lookup (user_preferences s2) u i) ∧
  (∀ u, is_Some (user_preferences s1 !! u) ↔ is_Some (user_preferences s2 !! u)) ∧
  (∀ i, item_popularity s1 !! i = item_popularity s2 !! i) ∧
  (∀ user avail g,
     (get_personalized_recommendations user avail g s1).1
     = (get_personalized_recommendations user avail g s2).1).
Proof.
  intros Hperm s1 s2. subst s1 s2. by rewrite (select_all_perm l1 l2 self Hperm).
Qed.

Lemma select_all_permutation_witness :
  q_values (select_all [(1, 7); (2, 7); (1, 8)] init) !! (1, 7)
  = q_values (select_all [(1, 8); (1, 7); (2, 7)] init) !! (1, 7).
Proof.
  destruct (select_all_permutation [(1, 7); (2, 7); (1, 8)] [(1, 8); (1, 7); (2, 7)] init)
    as (Hq & _).
  - change [(1, 8); (1, 7); (2, 7)] with ([(1, 8)] ++ [(1, 7); (2, 7)]).
    change [(1, 7); (2, 7); (1, 8)] with ([(1, 7); (2, 7)] ++ [(1, 8)]).
    apply Permutation_app_comm.
  - apply Hq.
Defined.

Lemma order_loop_app user reward l1 l2 self :
  order_loop user reward (l1 ++ l2) self
  = match order_loop user reward l1 self with
    | (Returned _, self1) => order_loop user reward l2 self1
    | (Raised e, self1) => (Raised e, self1)
    end.
Proof.
  revert self. induction l1 as [|it l1 IH]; intros self; simpl; [done|].
  destruct (order_line user reward it self) as [[[]|e] self1]; [apply IH|done].
Qed.

Lemma lines_for_app i l1 l2 : lines_for i (l1 ++ l2) = lines_for i l1 ++ lines_for i l2.
Proof. unfold lines_for. apply filter_app. Qed.

(** X12. A failed order is not rolled back: when the quantity of a line
    does not convert ([OverflowError]), the call raises, the lines before
    it have been applied in full, the Q-value of the failing line has
    already received the reward, its preference weight and its popularity
    have not (the popularity entry exists afterwards, 0.0 if it was
    absent), and the lines after it are not applied. *)
Theorem failed_order_is_partial user order now self before bad after :
  items_of order = before ++ bad :: after →
  quantities_convert before →
  float_of_int (quantity_of bad) = Raised OverflowError →
  let reward := order_reward (length (items_of order)) (total_of order) in
  ∃ self',
    record_order_completed user order now self = (Raised OverflowError, self') ∧
    (∀ i, q_values self' !! (user, i)
          = accumulate (q_values self !! (user, i))
                       ((λ _, reward) <$> lines_for i (before ++ [bad]))) ∧
    (∀ i, pref_lookup (user_preferences self') user i
          = accumulate (pref_lookup (user_preferences self) user i)
                       ((λ _, reward) <$> lines_for i before)) ∧
    (∀ i, i ≠ li_item_id bad →
          item_popularity self' !! i
          = accumulate (item_popularity self !! i) (popularity_increments i before)) ∧
    item_popularity self' !! li_item_id bad
    = Some (default 0%float
              (accumulate (item_popularity self !! li_item_id bad)
                          (popularity_increments (li_item_id bad) before))).
Proof.
  intros Hitems Hconv Hbad reward.
  destruct (order_loop_post user reward before self Hconv)
    as (self1 & Hrun & Hq & _ & Hp & _ & Hpop).
  unfold record_order_completed. fold reward.
  rewrite Hitems, order_loop_app, Hrun. simpl.
  unfold order_line. rewrite Hbad. eexists. split; [reflexivity|]. simpl.
  unfold reward_increments in *. repeat split.
  - intros i. rewrite lines_for_app, fmap_app.
    unfold lines_for at 2. rewrite filter_cons, filter_nil. case_decide as Hi.
    + subst i. simpl. by rewrite accumulate_snoc, dd_iadd_lookup, Hq.
    + simpl. rewrite app_nil_r, dd_iadd_lookup_ne by congruence. apply Hq.
  - intros i. rewrite pref_lookup_touch. apply Hp.
  - intros i Hi. unfold dd_touch.
    destruct (item_popularity self1 !! li_item_id bad); [apply Hpop|].
    rewrite lookup_insert_ne by done. apply Hpop.
  - unfold dd_touch. rewrite <- Hpop.
    destruct (item_popularity self1 !! li_item_id bad) as [v|] eqn:E; [by rewrite E|].
    by rewrite lookup_insert_eq.
Qed.

Lemma failed_order_is_partial_witness :
  ∃ self',
    record_order_completed 7 overflowing_order "2024-01-01T12:00:00" init
      = (Raised OverflowError, self') ∧
    q_values self' !! (7, 11) = Some 1%float ∧
    q_values self' !! (7, 12) = Some 1%float ∧
    q_values self' !! (7, 13) = None ∧
    pref_lookup (user_preferences self') 7 12 = None ∧
    item_popularity self' !! 12 = Some 0%float.
Proof.
  destruct (failed_order_is_partial 7 overflowing_order "2024-01-01T12:00:00" init
              [ {| li_item_id := 11; li_quantity := Some 2 |} ]
              {| li_item_id := 12; li_quantity := Some (2 ^ 1024) |}
              [ {| li_item_id := 13; li_quantity := Some 1 |} ])
    as (self' & Hrun & Hq & Hp & _ & Hpop).
  - reflexivity.
  - by repeat constructor.
  - reflexivity.
  - exists self'. split; [exact Hrun|]. cbn [li_item_id] in Hpop.
    rewrite !Hq, Hp, Hpop. by vm_compute.
Defined.

(** ** Loading: replacement, failures, absent sections *)

(** X13. A load replaces, it does not merge: for a document of the
    expected structure, every warning of which the console can print, the
    loop left by [load_state] and what it prints do not depend on the loop
    it was called on, and loading the same file again changes nothing. *)
Theorem load_state_replaces rt filepath state qs us ps self other fs :
  fs_files fs !! filepath = Some (JsonText state) →
  well_structured state qs us ps →
  Forall (printable rt) (loaded_output rt filepath qs us ps) →
  load_state rt filepath self fs = load_state rt filepath other fs ∧
  load_state rt filepath (load_state rt filepath self fs).1.2 fs
  = load_state rt filepath self fs.
Proof.
  intros Hfile Hws Hpr.
  by rewrite !(load_state_structured rt filepath state qs us ps _ fs Hfile Hws Hpr).
Qed.

Lemma load_state_replaces_witness :
  load_state example_runtime "rl_state.json" example_loop corrupt_q_files
  = load_state example_runtime "rl_state.json" init corrupt_q_files.
Proof.
  apply (load_state_replaces example_runtime "rl_state.json" corrupt_q_document
           [ ("3_7", JFloat 0.5%float); ("abc_xyz", JFloat 0.9%float); ("4_1", JInt 2) ]
           [ ("3", JObj [ ("7", JFloat 0.2%float) ]) ]
           [ ("7", JFloat 1.5%float) ]
           example_loop init corrupt_q_files).
  - reflexivity.
  - by repeat split.
  - vm_compute. by repeat constructor.
Defined.

(** X23. A warning that cannot be printed ends the load: when an entry of
    [q_values] does not convert and the console cannot encode its key,
    the warnings before it having been printed, [load_state] raises
    nothing and prints the failure. [q_values] then holds what the entries
    before that one assigned, the entries after it are not read, and
    [user_preferences] and [item_popularity] keep what they held before the
    call: the result depends on the loop the load was called on. *)
Theorem load_state_unprintable_key rt filepath state before key value e after self fs :
  fs_files fs !! filepath = Some (JsonText state) →
  json_get "q_values" state ≫= json_items = Returned (before ++ (key, value) :: after) →
  Forall (printable rt) (warnings (q_entry rt) (λ e, LogQKeyError e.1) before) →
  q_entry rt (key, value) = Raised e →
  console rt key = false →
  load_state rt filepath self fs
  = (Returned tt,
     {| q_values := assign_all (converted (q_entry rt) before) ∅;
        user_preferences := user_preferences self;
        item_popularity := item_popularity self |},
     [LogLoading filepath]
     ++ warnings (q_entry rt) (λ e, LogQKeyError e.1) before
     ++ [LogLoadFailed UnicodeEncodeError]).
Proof.
  intros Hfile Hq Hpr He Hkey.
  unfold load_state, load_body, load_document. rewrite Hfile, Hq.
  rewrite for_each_app, (load_q_entries rt before _ _ Hpr). cbn [for_each].
  rewrite load_q_entry_step, He. cbn [fst]. rewrite Hkey.
  cbn [q_values user_preferences item_popularity]. by rewrite <- app_assoc.
Qed.

Lemma load_state_unprintable_key_witness :
  load_state mute_runtime "rl_state.json" example_loop corrupt_q_files
  = (Returned tt,
     {| q_values := {[ (3, 7) := 0.5%float ]};
        user_preferences := user_preferences example_loop;
        item_popularity := item_popularity example_loop |},
     [LogLoading "rl_state.json"; LogLoadFailed UnicodeEncodeError]).
Proof.
  apply (load_state_unprintable_key mute_runtime "rl_state.json" corrupt_q_document
           [ ("3_7", JFloat 0.5%float) ] "abc_xyz" (JFloat 0.9%float) ValueError
           [ ("4_1", JInt 2) ] example_loop corrupt_q_files).
  - reflexivity.
  - reflexivity.
  - by constructor.
  - reflexivity.
  - reflexivity.
Defined.

Lemma section_failure_is_attribute_error name state e :
  json_get name state ≫= json_items = Raised e → e = AttributeError.
Proof.
  destruct state as [| | | | | |members]; simpl; try (by intros [= <-]).
  destruct (default (JObj []) (members_get name members)); simpl; by intros [= <-].
Qed.

(** X14. A document of the wrong shape half-resets the loop: when the
    loaded document is not an object, or its ['q_values'] member is not an
    object, [load_state] raises nothing and prints the failure, but it has
    already emptied [q_values]; [user_preferences] and [item_popularity]
    keep what they held before the call. *)
Theorem load_state_wrong_shape rt filepath state e self fs :
  fs_files fs !! filepath = Some (JsonText state) →
  json_get "q_values" state ≫= json_items = Raised e →
  load_state rt filepath self fs
  = (Returned tt,
     {| q_values := ∅; user_preferences := user_preferences self;
        item_popularity := item_popularity self |},
     [LogLoading filepath; LogLoadFailed AttributeError]).
Proof.
  intros Hfile Hq. pose proof (section_failure_is_attribute_error _ _ _ Hq) as ->.
  unfold load_state, load_body, load_document. by rewrite Hfile, Hq.
Qed.

Lemma load_state_wrong_shape_witness :
  load_state example_runtime "rl_state.json" example_loop array_files
  = (Returned tt,
     {| q_values := ∅; user_preferences := user_preferences example_loop;
        item_popularity := item_popularity example_loop |},
     [LogLoading "rl_state.json"; LogLoadFailed AttributeError]).
Proof.
  apply (load_state_wrong_shape example_runtime "rl_state.json" array_document AttributeError
           example_loop array_files); reflexivity.
Defined.

(** X15. Sections that are absent load as empty: for a document that is
    an object without the members ['q_values'], ['user_preferences'] and
    ['item_popularity'], whatever else it holds, [load_state] leaves the
    three mappings empty and prints no warning. *)
Theorem load_state_absent_sections rt filepath members self fs :
  fs_files fs !! filepath = Some (JsonText (JObj members)) →
  members_get "q_values" members = None →
  members_get "user_preferences" members = None →
  members_get "item_popularity" members = None →
  load_state rt filepath self fs
  = (Returned tt, init, [LogLoading filepath; LogLoaded 0 0 0]).
Proof.
  intros Hfile Hq Hu Hp.
  rewrite (load_state_structured rt filepath (JObj members) [] [] [] self fs Hfile).
  - reflexivity.
  - unfold well_structured. simpl. by rewrite Hq, Hu, Hp.
  - by repeat constructor.
Qed.

Lemma load_state_absent_sections_witness :
  load_state example_runtime "rl_state.json" example_loop
    {| fs_files := {[ "rl_state.json" := JsonText (JObj [("version", JInt 2)]) ]};
       fs_writable := λ _, true |}
  = (Returned tt, init, [LogLoading "rl_state.json"; LogLoaded 0 0 0]).
Proof.
  apply (load_state_absent_sections example_runtime "rl_state.json" [("version", JInt 2)]);
    reflexivity.
Defined.

(** ** The keys of the saved Q-values *)

Lemma split_on_length sep s : length (split_on sep s) = S (count_char sep s).
Proof.
  induction s as [|c s IH]; simpl; [done|].
  destruct (Ascii.eqb c sep); simpl; [by rewrite IH|].
  destruct (split_on sep s); simpl in *; congruence.
Qed.

(** X16. The key of a Q-value in the file: the key written for a pair of
    identifiers, negative ones included, parses back to that pair; two pairs
    never share a key; and a key is accepted only if it has exactly one
    underscore, any other key being refused with [ValueError]. *)
Theorem q_key_codec int_of_text :
  (∀ u i, parse_q_key int_of_text (q_key u i) = Returned (u, i)) ∧
  (∀ u i u' i', q_key u i = q_key u' i' → u = u' ∧ i = i') ∧
  (∀ key, count_char "_" key ≠ 1%nat → parse_q_key int_of_text key = Raised ValueError).
Proof.
  split; [apply parse_q_key_q_key|]. split.
  - intros u i u' i' Heq. apply q_key_inj in Heq. by simplify_eq.
  - intros key Hcount. unfold parse_q_key.
    pose proof (split_on_length "_" key) as Hlen.
    destruct (split_on "_" key) as [|a [|b [|c parts]]]; simpl in Hlen; try done.
    lia.
Qed.

Lemma q_key_codec_witness :
  parse_q_key (int_of_text example_runtime) (q_key (-3) 7) = Returned (-3, 7) ∧
  parse_q_key (int_of_text example_runtime) "1_2_3" = Raised ValueError.
Proof.
  destruct (q_key_codec (int_of_text example_runtime)) as (Hround & _ & Hcount).
  split; [apply Hround|]. apply Hcount. vm_compute. lia.
Defined.

(** ** Saving twice *)

Lemma save_state_writable filepath now self fs :
  fs_writable fs filepath = true →
  save_state filepath now self fs
  = (Returned tt, self,
     {| fs_files := <[filepath := JsonText (serialize now self)]> (fs_files fs);
        fs_writable := fs_writable fs |},
     [LogSaved filepath (size (q_values self)) (size (user_preferences self))
               (size (item_popularity self))]).
Proof. intros Hw. unfold save_state, save_body. by rewrite Hw. Qed.

(** X17. A save overwrites and touches one file: after two successful
    saves to the same path the file holds the second state (nothing of the
    first is kept), every other file is as it was before the saves, and a
    load from the path restores the Q-values and popularities of the second
    state. *)
Theorem save_state_overwrites rt filepath now1 now2 self1 self2 other fs :
  fs_writable fs filepath = true →
  let fs1 := (save_state filepath now1 self1 fs).1.2 in
  let fs2 := (save_state filepath now2 self2 fs1).1.2 in
  fs_files fs2 !! filepath = Some (JsonText (serialize now2 self2)) ∧
  (∀ p, p ≠ filepath → fs_files fs2 !! p = fs_files fs !! p) ∧
  q_values (load_state rt filepath other fs2).1.2 = q_values self2 ∧
  item_popularity (load_state rt filepath other fs2).1.2 = item_popularity self2.
Proof.
  intros Hw fs1 fs2. subst fs2 fs1.
  rewrite (save_state_writable filepath now1 self1 fs Hw). cbn [fst snd].
  rewrite save_state_writable by done. cbn [fst snd].
  set (fs2 := {| fs_files := _; fs_writable := _ |}).
  assert (Hfile : fs_files fs2 !! filepath = Some (JsonText (serialize now2 self2)))
    by apply lookup_insert_eq.
  split; [exact Hfile|]. split.
  - intros p Hp. unfold fs2. simpl. by rewrite !lookup_insert_ne by done.
  - rewrite (load_state_serialized rt filepath now2 self2 other fs2 Hfile).
    cbn [fst snd].
    destruct (loaded_state_serialized rt self2) as (Hq & Hpop & _). by split.
Qed.

Lemma save_state_overwrites_witness :
  let fs1 := (save_state "rl_state.json" "t1" init no_files).1.2 in
  let fs2 := (save_state "rl_state.json" "t2" example_loop fs1).1.2 in
  q_values (load_state example_runtime "rl_state.json" init fs2).1.2 = q_values example_loop.
Proof.
  intros fs1 fs2.
  destruct (save_state_overwrites example_runtime "rl_state.json" "t1" "t2" init example_loop
              init no_files eq_refl) as (_ & _ & Hq & _).
  exact Hq.
Defined.

(** ** Checkout *)

Lemma order_created_some env cart address id :
  order_created env = Some (cart, address, id) →
  env_services env = true ∧ env_cart_state env = Returned cart ∧
  env_address env = Returned address ∧
  (∃ order_id, env_create_order env = Returned order_id ∧ order_id_given order_id = Some id) ∧
  cs_items cart ≠ [] ∧ cs_minimum_order_met cart = true.
Proof.
  unfold order_created. destruct (env_services env); [|done].
  destruct (env_cart_state env) as [c|]; [|done].
  destruct (env_address env) as [a|]; [|done].
  destruct (env_create_order env) as [oid|]; [|done].
  destruct (cs_items c) eqn:Hitems; [done|].
  destruct (cs_minimum_order_met c) eqn:Hmin; [|done].
  destruct (order_id_given oid) eqn:Hid; [|done].
  intros [= <- <- <-]. rewrite Hitems. repeat split; try done. by exists oid.
Qed.

(** The call on an order the database created. *)
Lemma checkout_created user env self fs cart address id :
  order_created env = Some (cart, address, id) →
  checkout user env self fs =
    match record_order_completed user (order_of_cart cart) (env_now_order env) self with
    | (Raised e, self1) =>
        {| cr_response := CheckoutError e; cr_loop := self1; cr_files := fs;
           cr_cart_cleared := false |}
    | (Returned reward_info, self1) =>
        {| cr_response :=
             OrderPlaced id (cs_total cart) address (ri_reward reward_info);
           cr_loop := (save_state "rl_state.json" (env_now_save env) self1 fs).1.1.2;
           cr_files := (save_state "rl_state.json" (env_now_save env) self1 fs).1.2;
           cr_cart_cleared := true |}
    end.
Proof.
  intros Hc.
  destruct (order_created_some _ _ _ _ Hc) as (Hs & Hcart & Ha & (oid & Ho & Hid) & Hne & Hmin).
  unfold checkout. rewrite Hs, Hcart, Ha, Ho, Hid, Hmin. simpl.
  destruct (cs_items cart); [done|].
  destruct (record_order_completed _ _ _ _) as [[info|e] self1]; [|done].
  by destruct (save_state _ _ _ _) as [[[? ?] ?] ?].
Qed.

Lemma save_state_loop filepath now self fs :
  (save_state filepath now self fs).1.1.2 = self.
Proof. unfold save_state. by destruct (save_body _ _ _ _) as [[[]] ?]. Qed.

Lemma save_state_read_only filepath now self fs :
  fs_writable fs filepath = false → (save_state filepath now self fs).1.2 = fs.
Proof. intros Hw. unfold save_state, save_body. by rewrite Hw. Qed.

Lemma items_of_cart cart :
  length (items_of (order_of_cart cart)) = length (cs_items cart).
Proof. unfold items_of, order_of_cart. simpl. apply length_fmap. Qed.

(** A file that holds a saved state loads back to it. *)
Lemma load_saved rt filepath now self other fs :
  fs_files fs !! filepath = Some (JsonText (serialize now self)) →
  ∃ self' out,
    load_state rt filepath other fs = (Returned tt, self', out) ∧
    q_values self' = q_values self ∧
    item_popularity self' = item_popularity self ∧
    (∀ u i, pref_lookup (user_preferences self') u i
            = pref_lookup (user_preferences self) u i).
Proof.
  intros Hfile.
  pose proof (load_state_serialized rt filepath now self other fs Hfile) as Hload.
  destruct (loaded_state_serialized rt self) as (Hq & Hpop & Hflat & _).
  do 2 eexists. split; [exact Hload|]. split; [exact Hq|]. split; [exact Hpop|].
  intros u i. rewrite Hflat. symmetry. apply flat_prefs_flatten.
Qed.

(** X18. A checkout that does not answer with a placed order leaves the
    cart and the files alone: whatever the cart and the database answer or
    raise, the cart is cleared exactly when the response is the success
    one, and on every other response no file has been written. *)
Theorem checkout_failure_keeps_cart user env self fs :
  let r := checkout user env self fs in
  match cr_response r with
  | OrderPlaced _ _ _ _ => cr_cart_cleared r = true
  | _ => cr_cart_cleared r = false ∧ cr_files r = fs
  end.
Proof.
  unfold checkout.
  destruct (env_services env); simpl; [|done].
  destruct (env_cart_state env) as [cart|]; [|done].
  destruct (cs_items cart); [done|].
  destruct (cs_minimum_order_met cart); simpl; [|done].
  destruct (env_address env); [|done].
  destruct (env_create_order env) as [oid|]; [|done].
  destruct (order_id_given oid); [|done].
  destruct (record_order_completed _ _ _ _) as [[info|e] self1]; [|done].
  by destruct (save_state _ _ _ _) as [[[? ?] ?] ?].
Qed.

(** X19. Nothing is learned from an order that was not created: when a
    service is missing, the cart is empty or below the minimum, a
    collaborator raises, or the database returns no order identifier
    ([None] or 0), the learned mappings are the ones before the call and
    the response is not the success one. *)
Theorem checkout_without_order_learns_nothing user env self fs :
  order_created env = None →
  let r := checkout user env self fs in
  cr_loop r = self ∧
  ∀ id total address reward, cr_response r ≠ OrderPlaced id total address reward.
Proof.
  unfold order_created, checkout.
  destruct (env_services env); simpl; [|done].
  destruct (env_cart_state env) as [cart|]; [|done].
  destruct (cs_items cart); [done|].
  destruct (cs_minimum_order_met cart); simpl;
    [|by destruct (env_address env), (env_create_order env)].
  destruct (env_address env); [|done].
  destruct (env_create_order env) as [oid|]; [|done].
  by destruct (order_id_given oid).
Qed.

Lemma checkout_without_order_learns_nothing_witness :
  cr_loop (checkout 7 failing_env example_loop no_files) = example_loop ∧
  cr_response (checkout 7 failing_env example_loop no_files) = CheckoutError OSError.
Proof.
  split.
  - apply (checkout_without_order_learns_nothing 7 failing_env example_loop no_files).
    reflexivity.
  - reflexivity.
Defined.

(** X20. A created order is learned once and reported: when the database
    created the order and every quantity of the cart converts, the response
    carries the order identifier, the total, the address and the reward of
    the order (by the number of cart lines and the total), the cart is
    cleared, each Q-value of the user has received the reward once per cart
    line naming the item, the Q-values of other users are as before, and
    the state file holds the new state -- or, when the file cannot be
    written, nothing is written and the response is the same. *)
Theorem checkout_places_order user env self fs cart address id :
  order_created env = Some (cart, address, id) →
  quantities_convert (items_of (order_of_cart cart)) →
  let reward := order_reward (length (cs_items cart)) (cs_total cart) in
  let r := checkout user env self fs in
  cr_response r = OrderPlaced id (cs_total cart) address reward ∧
  cr_cart_cleared r = true ∧
  (∀ i, q_values (cr_loop r) !! (user, i)
        = accumulate (q_values self !! (user, i))
                     (reward_increments reward i (items_of (order_of_cart cart)))) ∧
  (∀ u i, u ≠ user → q_values (cr_loop r) !! (u, i) = q_values self !! (u, i)) ∧
  (if fs_writable fs "rl_state.json"
   then fs_files (cr_files r) !! "rl_state.json"
        = Some (JsonText (serialize (env_now_save env) (cr_loop r)))
   else cr_files r = fs).
Proof.
  intros Hc Hconv reward r. subst r.
  rewrite (checkout_created _ _ _ _ _ _ _ Hc).
  unfold record_order_completed. rewrite items_of_cart. fold reward.
  change (total_of (order_of_cart cart)) with (cs_total cart). fold reward.
  destruct (order_loop_post user reward _ self Hconv)
    as (self1 & Hrun & Hq & Hqo & _).
  rewrite Hrun. cbn [cr_response cr_cart_cleared cr_loop cr_files ri_reward].
  rewrite save_state_loop.
  split; [done|]. split; [done|]. split; [exact Hq|]. split; [exact Hqo|].
  destruct (fs_writable fs "rl_state.json") eqn:Hw.
  - rewrite (save_state_writable _ _ _ _ Hw). cbn [fst snd fs_files].
    apply lookup_insert_eq.
  - by apply save_state_read_only.
Qed.

Lemma checkout_places_order_witness :
  cr_response (checkout 7 example_env init no_files)
  = OrderPlaced 41 600%float "12 High Street" 1.5%float ∧
  q_values (cr_loop (checkout 7 example_env init no_files)) !! (7, 11) = Some 1.5%float ∧
  q_values (cr_loop (checkout 7 example_env init no_files)) !! (7, 13) = None.
Proof.
  destruct (checkout_places_order 7 example_env init no_files example_cart
              "12 High Street" 41) as (Hr & _ & Hq & _).
  - reflexivity.
  - by repeat constructor.
  - cbv zeta in Hr, Hq. rewrite Hr, !Hq. by vm_compute.
Defined.

(** X21. What a successful checkout learned survives a restart: when the
    response is the success one and the state file can be written, a new
    orchestrator started on the files the call left loads, without raising,
    the Q-values and popularities of the loop after the call, and every
    (user, item) preference weight. *)
Theorem checkout_survives_restart rt user env self fs id total address reward :
  cr_response (checkout user env self fs) = OrderPlaced id total address reward →
  fs_writable fs "rl_state.json" = true →
  let r := checkout user env self fs in
  ∃ self' out,
    start_rl_loop rt (cr_files r) = (Returned tt, self', out) ∧
    q_values self' = q_values (cr_loop r) ∧
    item_popularity self' = item_popularity (cr_loop r) ∧
    (∀ u i, pref_lookup (user_preferences self') u i
            = pref_lookup (user_preferences (cr_loop r)) u i).
Proof.
  intros Hr Hw r. subst r. unfold start_rl_loop.
  apply (load_saved rt "rl_state.json" (env_now_save env)).
  revert Hr. unfold checkout.
  destruct (env_services env); simpl; [|done].
  destruct (env_cart_state env) as [cart|]; [|done].
  destruct (cs_items cart); [done|].
  destruct (cs_minimum_order_met cart); simpl; [|done].
  destruct (env_address env); [|done].
  destruct (env_create_order env) as [oid|]; [|done].
  destruct (order_id_given oid); [|done].
  destruct (record_order_completed _ _ _ _) as [[info|e] self1]; [|done].
  rewrite (save_state_writable _ _ _ _ Hw). intros _. cbn [cr_files cr_loop fs_files].
  apply lookup_insert_eq.
Qed.

Lemma checkout_survives_restart_witness :
  ∃ self' out,
    start_rl_loop example_runtime (cr_files (checkout 7 example_env init no_files))
    = (Returned tt, self', out) ∧
    q_values self' !! (7, 11) = Some 1.5%float.
Proof.
  destruct (checkout_survives_restart example_runtime 7 example_env init no_files
              41 600%float "12 High Street" 1.5%float)
    as (self' & out & Hload & Hq & _).
  - reflexivity.
  - reflexivity.
  - exists self', out. split; [exact Hload|]. cbv zeta in Hq. rewrite Hq. by vm_compute.
Defined.
